(** * Smart-ATS-Pro-Elite: the text-scoring heuristics

    A shallow embedding of the scoring functions of [src/app.py]
    (class [EnhancedAnalyzer]) and of
    [src/Core Engine/enhanced_app_integration.py] (class
    [SmartATSProElite]), with the part of the Python runtime they rest on:
    exceptions, the numeric tower ([int] and binary64 [float]), [str]
    methods, the [re] patterns the code uses, and dictionaries. *)

From Stdlib Require Import ZArith NArith List Ascii String Bool Lia SpecFloat Permutation DecimalString.
From stdpp Require Import gmap strings list.
Import ListNotations.
Open Scope Z_scope.

(** ** Exceptions and results *)

Inductive exn :=
| NameError (name : string)
| ZeroDivisionError
| OverflowError
| ValueError
| TypeError.

Inductive result (A : Type) :=
| Ok (a : A)
| Raise (e : exn).
Arguments Ok {A} a.
Arguments Raise {A} e.

Definition bind {A B : Type} (r : result A) (k : A -> result B) : result B :=
  match r with
  | Ok a => k a
  | Raise e => Raise e
  end.

Notation "x <- r ;; k" := (bind r (fun x => k))
  (at level 100, r at next level, right associativity).

(** ** Numbers: [int] is [Z], [float] is IEEE 754 binary64 *)

Definition prec : Z := 53.
Definition emax : Z := 1024.

Inductive num :=
| PyInt (z : Z)
| PyFloat (f : spec_float).

(** [float(n)] for an [int] operand of a mixed operation: the nearest
    double, ties to even.  (CPython raises OverflowError from 2^1024 on;
    no length reaches that.) *)
Definition float_of_int (n : Z) : spec_float := binary_normalize prec emax n 0 false.

Definition as_float (x : num) : spec_float :=
  match x with
  | PyInt z => float_of_int z
  | PyFloat f => f
  end.

(** An integer seen as an unrounded significand with exponent 0. *)
Definition raw_of_Z (n : Z) : spec_float :=
  match n with
  | Z0 => S754_zero false
  | Zpos p => S754_finite false p 0
  | Zneg p => S754_finite true p 0
  end.

(** [a / b] on two ints: the exact quotient rounded once to the nearest
    double ([long_true_divide]); [SFdiv] normalises its operands itself. *)
Definition int_truediv (a b : Z) : result num :=
  if b =? 0 then Raise ZeroDivisionError
  else Ok (PyFloat (SFdiv prec emax (raw_of_Z a) (raw_of_Z b))).

Definition num_mul (x y : num) : num :=
  match x, y with
  | PyInt a, PyInt b => PyInt (a * b)
  | _, _ => PyFloat (SFmul prec emax (as_float x) (as_float y))
  end.

Definition num_sub (x y : num) : num :=
  match x, y with
  | PyInt a, PyInt b => PyInt (a - b)
  | _, _ => PyFloat (SFsub prec emax (as_float x) (as_float y))
  end.

(** [x < y].  Between an int and a float CPython compares exactly; for
    the ints that occur here (below 2^53) that is the comparison of the
    converted operands. *)
Definition num_lt (x y : num) : bool :=
  match x, y with
  | PyInt a, PyInt b => a <? b
  | _, _ => SFltb (as_float x) (as_float y)
  end.

(** [min(a, b)] and [max(a, b)] keep the first argument unless the second
    is strictly smaller (resp. greater). *)
Definition py_min (a b : num) : num := if num_lt b a then b else a.
Definition py_max (a b : num) : num := if num_lt a b then b else a.

(** Truncation of a finite double towards zero. *)
Definition Ztrunc (x : spec_float) : option Z :=
  match x with
  | S754_zero _ => Some 0
  | S754_finite s m e =>
      Some (cond_Zopp s (if e <? 0 then Zpos m / 2 ^ (- e) else Zpos m * 2 ^ e))
  | _ => None
  end.

(** [int(x)] *)
Definition py_int (x : num) : result Z :=
  match x with
  | PyInt z => Ok z
  | PyFloat S754_nan => Raise ValueError
  | PyFloat (S754_infinity _) => Raise OverflowError
  | PyFloat f => match Ztrunc f with Some z => Ok z | None => Raise ValueError end
  end.

(** The float literals of the source. *)
Definition float_0_1 : spec_float := S754_finite false 7205759403792794 (-56).
Definition float_1_5 : spec_float := S754_finite false 6755399441055744 (-52).

(** ** Text: a [str] is a list of code points, here Latin-1 *)

Definition str : Type := list ascii.
Definition lit (s : string) : str := list_ascii_of_string s.
Definition len {A : Type} (l : list A) : Z := Z.of_nat (length l).
Definition code (c : ascii) : N := N_of_ascii c.

Definition in_range (lo hi : N) (c : ascii) : bool :=
  ((lo <=? code c) && (code c <=? hi))%N.

(** [str.isspace] and the class [\s] *)
Definition isspace (c : ascii) : bool :=
  in_range 9 13 c || in_range 28 32 c || in_range 133 133 c || in_range 160 160 c.

(** [str.isdecimal] and the class [\d] *)
Definition isdecimal (c : ascii) : bool := in_range 48 57 c.

(** [str.isalnum] *)
Definition isalnum (c : ascii) : bool :=
  in_range 48 57 c || in_range 65 90 c || in_range 97 122 c ||
  in_range 170 170 c || in_range 178 179 c || in_range 181 181 c ||
  in_range 185 186 c || in_range 188 190 c || in_range 192 214 c ||
  in_range 216 246 c || in_range 248 255 c.

(** The class [\w]: alphanumerics and the underscore. *)
Definition isword (c : ascii) : bool := isalnum c || in_range 95 95 c.

Definition is_upper (c : ascii) : bool :=
  in_range 65 90 c || in_range 192 214 c || in_range 216 222 c.

Definition lower_char (c : ascii) : ascii :=
  if is_upper c then ascii_of_N (code c + 32) else c.

(** [s.lower()] *)
Definition lower (s : str) : str := map lower_char s.

(** [s.split()]: maximal runs of non-whitespace; [cur] is the run being read. *)
Fixpoint split_from (cur : str) (s : str) : list str :=
  match s with
  | [] => match cur with [] => [] | _ => [cur] end
  | c :: s' =>
      if isspace c
      then match cur with [] => split_from [] s' | _ => cur :: split_from [] s' end
      else split_from (cur ++ [c]) s'
  end.

Definition split (s : str) : list str := split_from [] s.

(** [s.split(sep)] for a one-character separator. *)
Fixpoint split_on_from (sep : ascii) (cur : str) (s : str) : list str :=
  match s with
  | [] => [cur]
  | c :: s' =>
      if Ascii.eqb c sep then cur :: split_on_from sep [] s'
      else split_on_from sep (cur ++ [c]) s'
  end.

Definition split_on (sep : ascii) (s : str) : list str := split_on_from sep [] s.

(** [s.startswith(p)] *)
Fixpoint startswith (p s : str) : bool :=
  match p, s with
  | [], _ => true
  | _ :: _, [] => false
  | a :: p', b :: s' => Ascii.eqb a b && startswith p' s'
  end.

(** [needle in hay] *)
Fixpoint contains (needle hay : str) : bool :=
  startswith needle hay ||
  match hay with
  | [] => false
  | _ :: hay' => contains needle hay'
  end.

(** ** The fragment of [re] the source uses

    A pattern is a sequence of atoms: one character of a class, or the
    zero-width word boundary [\b]. *)

Inductive atom :=
| One (p : ascii -> bool)
| Boundary.

Definition regex : Type := list atom.

Definition word_before (prev : option ascii) : bool :=
  match prev with Some c => isword c | None => false end.

Definition word_at (s : str) : bool :=
  match s with c :: _ => isword c | [] => false end.

(** Match [re] at the current position; [prev] is the character before
    it.  The result is the number of characters consumed. *)
Fixpoint match_here (re : regex) (prev : option ascii) (s : str) : option nat :=
  match re with
  | [] => Some 0%nat
  | Boundary :: re' =>
      if xorb (word_before prev) (word_at s) then match_here re' prev s else None
  | One p :: re' =>
      match s with
      | c :: s' => if p c then option_map S (match_here re' (Some c) s') else None
      | [] => None
      end
  end.

Fixpoint search_from (re : regex) (prev : option ascii) (s : str) : bool :=
  match match_here re prev s with
  | Some _ => true
  | None =>
      match s with
      | [] => false
      | c :: s' => search_from re (Some c) s'
      end
  end.

(** [bool(re.search(re, s))] *)
Definition re_search (re : regex) (s : str) : bool := search_from re None s.

(** Leftmost non-overlapping matches; [skip] characters of the last match
    are still to be passed. *)
Fixpoint findall_from (re : regex) (prev : option ascii) (skip : nat) (s : str) : list str :=
  match skip with
  | S k =>
      match s with
      | [] => []
      | c :: s' => findall_from re (Some c) k s'
      end
  | O =>
      match match_here re prev s with
      | Some n =>
          firstn n s ::
          match s with
          | [] => []
          | c :: s' => findall_from re (Some c) (Nat.pred n) s'
          end
      | None =>
          match s with
          | [] => []
          | c :: s' => findall_from re (Some c) 0 s'
          end
      end
  end.

(** [re.findall(re, s)] *)
Definition re_findall (re : regex) (s : str) : list str := findall_from re None 0 s.

(** [r'\b\d{4}\b'], [r'@'] and [r'[^\w\s]'] *)
Definition pat_year : regex :=
  [Boundary; One isdecimal; One isdecimal; One isdecimal; One isdecimal; Boundary].
Definition pat_at : regex := [One (Ascii.eqb "@")].
Definition pat_special : regex := [One (fun c => negb (isword c || isspace c))].

(** ** Module namespaces

    A global name is looked up when the statement that uses it runs. *)

(** The names bound at the top level of
    [Core Engine/enhanced_app_integration.py] (its imports, lines 1-39,
    the class and [main]). *)
Definition enhanced_app_integration_globals : list string :=
  [ "load_dotenv"; "st"; "os"; "datetime"; "json"; "time"; "go"; "px";
    "Dict"; "List"; "Any"; "pd"; "asyncio"; "ThreadPoolExecutor";
    "load_advanced_css"; "create_enhanced_header"; "create_enhanced_sidebar";
    "create_enhanced_metrics_dashboard"; "create_feature_cards";
    "show_success_animation"; "show_error_animation"; "create_loading_spinner";
    "ThemeManager"; "PDFProcessor"; "EnhancedGeminiAnalyzer";
    "AdvancedVisualizationEngine"; "ReportGenerator"; "IntelligentResumeBuilder";
    "ResumeOptimizationEngine"; "PerformanceTracker"; "GoalSettingEngine";
    "MarketIntelligenceEngine"; "InterviewPreparationEngine"; "InterviewAnalytics";
    "SessionManager"; "KeywordExtractor"; "SmartATSProElite"; "main" ]%string.

Definition load_global (globals : list string) (name : string) : result unit :=
  if existsb (String.eqb name) globals then Ok tt else Raise (NameError name).

(** ** Dictionaries of analysis results *)

Inductive pyval :=
| VNone
| VNum (n : num)
| VStr (s : str)
| VList (l : list str).

(** [d.get(key, default)] *)
Definition dict_get (d : gmap str pyval) (key : string) (dflt : pyval) : pyval :=
  default dflt (d !! lit key).

(** [kw in v] *)
Definition py_in (kw : str) (v : pyval) : result bool :=
  match v with
  | VList l => Ok (bool_decide (kw ∈ l))
  | VStr s => Ok (contains kw s)
  | _ => Raise TypeError
  end.

(** [len(v)] *)
Definition py_len (v : pyval) : result Z :=
  match v with
  | VList l => Ok (len l)
  | VStr s => Ok (len s)
  | _ => Raise TypeError
  end.

(** [v < n] and [v > n] against an int literal. *)
Definition val_lt (v : pyval) (n : Z) : result bool :=
  match v with
  | VNum x => Ok (num_lt x (PyInt n))
  | _ => Raise TypeError
  end.

Definition val_gt (v : pyval) (n : Z) : result bool :=
  match v with
  | VNum x => Ok (num_lt (PyInt n) x)
  | _ => Raise TypeError
  end.

(** [[x for x in l if cond(x)]] with a condition that may raise. *)
Fixpoint filter_r {A : Type} (cond : A -> result bool) (l : list A) : result (list A) :=
  match l with
  | [] => Ok []
  | x :: l' =>
      b <- cond x ;;
      rest <- filter_r cond l' ;;
      Ok (if b then x :: rest else rest)
  end.

(** ** The two classes *)

(** [SmartATSProElite]: its session store and the tab it shows; the
    engines it holds are external collaborators. *)
Record SmartATSProElite := {
  session : gmap str pyval;
  current_tab : str
}.

(** [EnhancedAnalyzer]: holds the external analyzer, a function from the
    two texts to an analysis dictionary. *)
Record EnhancedAnalyzer := {
  gemini_analyzer : str -> str -> result (gmap str pyval)
}.

(** ** [SmartATSProElite]: quick scores (enhanced_app_integration.py) *)

(** [calculate_quick_ats_score], in a module whose top level binds the
    names [globals]. *)
Definition calculate_quick_ats_score_in (globals : list string)
    (self : SmartATSProElite) (resume_text : str) : result Z :=
  let score := 100 in
  let score := if len resume_text <? 500 then score - 20 else score in
  _ <- load_global globals "re" ;;
  let score := if negb (re_search pat_year resume_text) then score - 15 else score in
  _ <- load_global globals "re" ;;
  let score := if negb (re_search pat_at resume_text) then score - 10 else score in
  _ <- load_global globals "re" ;;
  let specials := PyInt (len (re_findall pat_special resume_text)) in
  let tenth := num_mul (PyInt (len resume_text)) (PyFloat float_0_1) in
  let score := if num_lt tenth specials then score - 10 else score in
  Ok (Z.max 0 score).

(** The method as the module defines it. *)
Definition calculate_quick_ats_score : SmartATSProElite -> str -> result Z :=
  calculate_quick_ats_score_in enhanced_app_integration_globals.

Definition calculate_keyword_density (self : SmartATSProElite)
    (resume_text job_description : str) : result Z :=
  let resume_words : gset str := list_to_set (split (lower resume_text)) in
  let jd_words : gset str := list_to_set (split (lower job_description)) in
  let common_words := resume_words ∩ jd_words in
  if bool_decide (jd_words = ∅) then Ok 0
  else
    q <- int_truediv (Z.of_nat (size common_words)) (Z.of_nat (size jd_words)) ;;
    py_int (num_mul q (PyInt 100)).

(** ** [EnhancedAnalyzer] (app.py) *)

Record IndustryInsights := {
  industry : str;
  matched_industry_keywords : list str;
  missing_industry_keywords : list str;
  industry_score : num;
  industry_recommendations : list str
}.

Definition industry_keywords : gmap str (list str) :=
  list_to_map
    [ (lit "Technology",
       map lit ["agile"; "scrum"; "api"; "cloud"; "devops"; "microservices"; "scalability"]%string);
      (lit "Healthcare",
       map lit ["hipaa"; "patient care"; "clinical"; "medical"; "compliance"; "safety"]%string);
      (lit "Finance",
       map lit ["regulatory"; "compliance"; "risk management"; "audit"; "financial modeling"]%string);
      (lit "Marketing",
       map lit ["seo"; "sem"; "analytics"; "conversion"; "campaigns"; "brand"; "roi"]%string);
      (lit "Data Science",
       map lit ["machine learning"; "statistics"; "python"; "sql"; "visualization"; "modeling"]%string) ].

Definition recommendations : gmap str (list str) :=
  list_to_map
    [ (lit "Technology",
       map lit ["Emphasize technical achievements with metrics";
                "Include open-source contributions or personal projects";
                "Highlight experience with modern tech stacks"]%string);
      (lit "Healthcare",
       map lit ["Emphasize patient outcomes and safety improvements";
                "Include relevant certifications and compliance knowledge";
                "Highlight interdisciplinary collaboration"]%string);
      (lit "Finance",
       map lit ["Quantify financial impacts and cost savings";
                "Emphasize risk management and compliance experience";
                "Include relevant financial modeling and analysis skills"]%string) ].

Definition _get_industry_recommendations (self : EnhancedAnalyzer)
    (industry : str) (missing_keywords : list str) : list str :=
  default [lit "Tailor resume to industry-specific requirements"] (recommendations !! industry).

Definition _get_industry_insights (self : EnhancedAnalyzer)
    (industry : str) (analysis : gmap str pyval) : result IndustryInsights :=
  let relevant_keywords := default [] (industry_keywords !! industry) in
  matched <- filter_r
    (fun kw => py_in kw (dict_get analysis "matched_keywords" (VList [])))
    relevant_keywords ;;
  missing <- filter_r
    (fun kw => b <- py_in kw (dict_get analysis "matched_keywords" (VList [])) ;; Ok (negb b))
    relevant_keywords ;;
  score <- match relevant_keywords with
           | [] => Ok (PyInt 0)
           | _ :: _ =>
               q <- int_truediv (len matched) (len relevant_keywords) ;;
               Ok (num_mul q (PyInt 100))
           end ;;
  Ok {| industry := industry;
        matched_industry_keywords := matched;
        missing_industry_keywords := missing;
        industry_score := score;
        industry_recommendations := _get_industry_recommendations self industry missing |}.

Record Sentiment := {
  tone_score : Z;
  positive_indicators : Z;
  weak_indicators : Z;
  overall_tone : str
}.

Definition positive_words : list str :=
  map lit ["achieved"; "improved"; "increased"; "successful"; "led"; "managed"; "developed"]%string.

Definition weak_words : list str :=
  map lit ["responsible for"; "duties included"; "worked on"; "helped with"]%string.

(** [sum(1 for word in words if word in text.lower())] *)
Definition count_present (words : list str) (text : str) : Z :=
  fold_left Z.add (map (fun _ => 1) (List.filter (fun word => contains word (lower text)) words)) 0.

Definition _analyze_sentiment (self : EnhancedAnalyzer) (text : str) : Sentiment :=
  let positive_count := count_present positive_words text in
  let weak_count := count_present weak_words text in
  {| tone_score := Z.min 100 ((positive_count - weak_count) * 10 + 70);
     positive_indicators := positive_count;
     weak_indicators := weak_count;
     overall_tone := if weak_count <? positive_count then lit "Strong" else lit "Needs Improvement" |}.

Definition _calculate_readability (self : EnhancedAnalyzer) (text : str) : result Z :=
  let words := split text in
  let sentences := split_on "." text in
  avg_words_per_sentence <- int_truediv (len words) (Z.max (len sentences) 1) ;;
  let readability :=
    py_max (PyInt 0)
      (py_min (PyInt 100)
         (num_sub (PyInt 100) (num_mul (num_sub avg_words_per_sentence (PyInt 15)) (PyInt 2)))) in
  py_int readability.

Definition _calculate_uniqueness (self : EnhancedAnalyzer) (text : str) : result Z :=
  let unique_words : gset str := list_to_set (split (lower text)) in
  let total_words := len (split text) in
  uniqueness <- (if 0 <? total_words
                 then q <- int_truediv (Z.of_nat (size unique_words)) total_words ;;
                      Ok (num_mul q (PyInt 100))
                 else Ok (PyInt 0)) ;;
  n <- py_int (num_mul uniqueness (PyFloat float_1_5)) ;;
  Ok (Z.min 100 n).

(** ** Notions the statements use *)

(** [sub] occurs in [s] as a contiguous piece. *)
Definition Substring (sub s : str) : Prop :=
  exists pre post, s = pre ++ sub ++ post.

Definition ends_blank (pre : str) : Prop :=
  pre = [] \/ exists p c, pre = p ++ [c] /\ isspace c = true.

Definition starts_blank (post : str) : Prop :=
  match post with
  | [] => True
  | c :: _ => isspace c = true
  end.

Definition nonblank (w : str) : Prop := forallb (fun c => negb (isspace c)) w = true.

(** [w] is a whitespace-separated word of [t]: a non-empty run without
    whitespace that neither side could extend. *)
Definition word_of (w t : str) : Prop :=
  exists pre post,
    t = pre ++ w ++ post /\ w <> [] /\ nonblank w /\ ends_blank pre /\ starts_blank post.

(** Number of positions where a word begins. *)
Fixpoint word_starts (after_blank : bool) (s : str) : nat :=
  match s with
  | [] => 0%nat
  | c :: s' =>
      if isspace c then word_starts true s'
      else ((if after_blank then 1 else 0) + word_starts false s')%nat
  end.

Definition count_words (t : str) : Z := Z.of_nat (word_starts true t).

(** Number of fragments a text falls into when cut at every [sep]. *)
Definition count_fragments (sep : ascii) (t : str) : Z :=
  1 + len (List.filter (Ascii.eqb sep) t).

(** [pre ++ d ++ post] with [d] four decimal digits that no word
    character touches. *)
Definition standalone_year (t : str) : Prop :=
  exists pre a b c d post,
    t = pre ++ [a; b; c; d] ++ post /\
    isdecimal a = true /\ isdecimal b = true /\ isdecimal c = true /\ isdecimal d = true /\
    word_before (last pre) = false /\
    word_at post = false.

(** A double clamped to [0, 100] and truncated. *)
Definition clamp_percent (x : spec_float) : option Z :=
  if SFleb x (float_of_int 0) then Some 0
  else if SFleb (float_of_int 100) x then Some 100
  else Ztrunc x.

(** Binary64 values of [c / j * 100] and [u / t * 100 * 1.5], each
    operation rounded. *)
Definition percent_of (c j : Z) : spec_float :=
  SFmul prec emax (SFdiv prec emax (raw_of_Z c) (raw_of_Z j)) (float_of_int 100).

Definition scaled_percent_of (u t : Z) : spec_float :=
  SFmul prec emax (percent_of u t) float_1_5.

(** The value [100 - (w / s - 15) * 2] in binary64. *)
Definition readability_value (w s : Z) : spec_float :=
  SFsub prec emax (float_of_int 100)
    (SFmul prec emax
       (SFsub prec emax (SFdiv prec emax (raw_of_Z w) (raw_of_Z s)) (float_of_int 15))
       (float_of_int 2)).

(** *** Rounding *)

Definition exact_rec (mrs : shr_record) : Prop :=
  shr_r mrs = false /\ shr_s mrs = false.

(** What a rounding step returns for a significand [m] and exponent [e]. *)
Definition pack (s : bool) (m e : Z) : spec_float :=
  match m with
  | Z0 => S754_zero s
  | Zpos p => if e <=? 971 then S754_finite s p e else S754_infinity s
  | Zneg _ => S754_nan
  end.

Definition inexact_bit (l : location) : Z :=
  match l with loc_Exact => 0 | loc_Inexact _ => 1 end.

(** [below K x]: [x] is zero or a positive finite double of value at most [K]. *)
Definition below (K : Z) (x : spec_float) : Prop :=
  match x with
  | S754_zero _ => True
  | S754_finite false m e => e <= 0 /\ Zpos m <= K * 2 ^ (- e)
  | _ => False
  end.

(** A finite double whose significand fits 53 bits. *)
Definition canonical (x : spec_float) : Prop :=
  match x with
  | S754_finite _ m _ => Zpos m < 2 ^ 53
  | _ => True
  end.

Definition not_nan (x : spec_float) : Prop :=
  match x with S754_nan => False | _ => True end.

Definition float_one : spec_float := S754_finite false 4503599627370496 (-52).
Definition float_100 : spec_float := S754_finite false 7036874417766400 (-46).

(** The words [split_from cur s] returns: the run in progress extended by
    the leading run of [s], and the words that begin inside [s]. *)
Definition inner_word (w s : str) : Prop :=
  exists pre post,
    s = pre ++ w ++ post /\ w <> [] /\ nonblank w /\
    (exists p c, pre = p ++ [c] /\ isspace c = true) /\ starts_blank post.

Definition leading_word (cur w s : str) : Prop :=
  w <> [] /\ exists r post, s = r ++ post /\ nonblank r /\ starts_blank post /\ w = cur ++ r.

(** The industries [_get_industry_insights] has keywords for. *)
Definition known_industries : list str :=
  [lit "Technology"; lit "Healthcare"; lit "Finance"; lit "Marketing"; lit "Data Science"].

(** The entry [matched_keywords] is absent, a list or a string, so that
    [kw in ...] is defined. *)
Definition keywords_usable (analysis : gmap str pyval) : Prop :=
  match analysis !! lit "matched_keywords" with
  | None | Some (VList _) | Some (VStr _) => True
  | Some _ => False
  end.

(** [kw] is present in the entry [matched_keywords]. *)
Definition keyword_present (kw : str) (analysis : gmap str pyval) : Prop :=
  match analysis !! lit "matched_keywords" with
  | Some (VList l) => kw ∈ l
  | Some (VStr s) => Substring kw s
  | _ => False
  end.

Definition keyword_present_b (kw : str) (analysis : gmap str pyval) : bool :=
  match analysis !! lit "matched_keywords" with
  | Some (VList l) => bool_decide (kw ∈ l)
  | Some (VStr s) => contains kw s
  | _ => false
  end.

(** ** [EnhancedAnalyzer]: the further helpers of app.py *)

(** [str(n)] as an f-string prints an int. *)
Definition str_of_int (n : Z) : str := lit (NilZero.string_of_int (Z.to_int n)).

(** [v != s] for a string literal [s]. *)
Definition val_ne_str (v : pyval) (s : str) : bool :=
  match v with
  | VStr t => negb (bool_decide (t = s))
  | _ => true
  end.

Record ExperienceAdjustment := {
  focus_areas : list str;
  keyword_weight : spec_float;
  experience_expectations : str
}.

Definition float_0_8 : spec_float := S754_finite false 7205759403792794 (-53).
Definition float_1_0 : spec_float := S754_finite false 4503599627370496 (-52).
Definition float_1_2 : spec_float := S754_finite false 5404319552844595 (-52).

Definition mid_level : ExperienceAdjustment :=
  {| focus_areas := map lit ["achievements"; "leadership"; "project management"]%string;
     keyword_weight := float_1_0;
     experience_expectations := lit "growth-oriented" |}.

Definition level_adjustments : gmap str ExperienceAdjustment :=
  list_to_map
    [ (lit "Entry Level (0-2 years)",
       {| focus_areas := map lit ["education"; "projects"; "internships"; "certifications"]%string;
          keyword_weight := float_0_8;
          experience_expectations := lit "learning-focused" |});
      (lit "Mid Level (3-5 years)", mid_level);
      (lit "Senior Level (6-10 years)",
       {| focus_areas := map lit ["leadership"; "strategy"; "mentoring"; "results"]%string;
          keyword_weight := float_1_2;
          experience_expectations := lit "results-driven" |});
      (lit "Executive (10+ years)",
       {| focus_areas := map lit ["vision"; "transformation"; "p&l"; "board"]%string;
          keyword_weight := float_1_5;
          experience_expectations := lit "strategic-leadership" |}) ].

(** [level_adjustments.get(experience_level, level_adjustments["Mid Level (3-5 years)"])] *)
Definition _adjust_for_experience (self : EnhancedAnalyzer)
    (experience_level : str) (analysis : gmap str pyval) : ExperienceAdjustment :=
  default (default mid_level (level_adjustments !! lit "Mid Level (3-5 years)"))
          (level_adjustments !! experience_level).

Record RoadmapEntry := {
  priority : str;
  action : str;
  description : str;
  estimated_impact : str;
  time_required : str
}.

Definition roadmap_keywords : RoadmapEntry :=
  {| priority := lit "Critical";
     action := lit "Add Job-Specific Keywords";
     description := lit "Your resume lacks essential keywords from the job description";
     estimated_impact := lit "+20-30% match score";
     time_required := lit "1-2 hours" |}.

Definition roadmap_skills : RoadmapEntry :=
  {| priority := lit "High";
     action := lit "Optimize Technical Skills Section";
     description := lit "Incorporate missing technical keywords naturally";
     estimated_impact := lit "+10-15% match score";
     time_required := lit "30-60 minutes" |}.

Definition roadmap_ats : RoadmapEntry :=
  {| priority := lit "High";
     action := lit "Improve ATS Compatibility";
     description := lit "Format resume for better ATS parsing";
     estimated_impact := lit "Better ATS pass-through rate";
     time_required := lit "45 minutes" |}.

Definition _create_optimization_roadmap (self : EnhancedAnalyzer)
    (analysis : gmap str pyval) : result (list RoadmapEntry) :=
  let roadmap := [] in
  low <- val_lt (dict_get analysis "match_percentage" (VNum (PyInt 0))) 50 ;;
  let roadmap := if low then roadmap ++ [roadmap_keywords] else roadmap in
  n <- py_len (dict_get analysis "missing_keywords" (VList [])) ;;
  let roadmap := if 3 <? n then roadmap ++ [roadmap_skills] else roadmap in
  let roadmap :=
    if val_ne_str (dict_get analysis "ats_friendliness" VNone) (lit "High")
    then roadmap ++ [roadmap_ats] else roadmap in
  Ok roadmap.

Definition _identify_competitive_advantages (self : EnhancedAnalyzer)
    (analysis : gmap str pyval) : result (list str) :=
  let advantages := [] in
  high <- val_gt (dict_get analysis "match_percentage" (VNum (PyInt 0))) 80 ;;
  let advantages :=
    if high then advantages ++ [lit "High keyword alignment with job requirements"]
    else advantages in
  n <- py_len (dict_get analysis "matched_keywords" (VList [])) ;;
  let advantages :=
    if 10 <? n then advantages ++ [lit "Strong technical keyword coverage"]
    else advantages in
  Ok advantages.

Definition _identify_improvement_areas (self : EnhancedAnalyzer)
    (analysis : gmap str pyval) : result (list str) :=
  let areas := [] in
  low <- val_lt (dict_get analysis "match_percentage" (VNum (PyInt 0))) 70 ;;
  let areas :=
    if low then areas ++ [lit "Increase job-specific keyword usage"] else areas in
  n <- py_len (dict_get analysis "missing_keywords" (VList [])) ;;
  let areas :=
    if 5 <? n then areas ++ [lit "Add more relevant technical skills"] else areas in
  Ok areas.

Record CompetitiveAnalysis := {
  estimated_competition_level : str;
  competitive_advantage : list str;
  areas_to_improve : list str;
  market_positioning : str
}.

Definition _perform_competitive_analysis (self : EnhancedAnalyzer)
    (analysis : gmap str pyval) : result CompetitiveAnalysis :=
  low <- val_lt (dict_get analysis "match_percentage" (VNum (PyInt 0))) 70 ;;
  advantages <- _identify_competitive_advantages self analysis ;;
  areas <- _identify_improvement_areas self analysis ;;
  top25 <- val_gt (dict_get analysis "match_percentage" (VNum (PyInt 0))) 80 ;;
  positioning <-
    (if top25 then Ok (lit "Top 25%")
     else
       top50 <- val_gt (dict_get analysis "match_percentage" (VNum (PyInt 0))) 60 ;;
       Ok (if top50 then lit "Top 50%" else lit "Needs Improvement")) ;;
  Ok {| estimated_competition_level := if low then lit "High" else lit "Medium";
        competitive_advantage := advantages;
        areas_to_improve := areas;
        market_positioning := positioning |}.

Record ATSSimulation := {
  parsing_success_rate : Z;
  keyword_extraction_accuracy : Z;
  formatting_compatibility : str;
  estimated_ranking : str;
  processing_time : str
}.

Definition _simulate_ats_processing (self : EnhancedAnalyzer)
    (resume_text job_description : str) : result ATSSimulation :=
  let rate := if 100 <? len resume_text then 95 else 80 in
  tenth <- int_truediv (len (split resume_text)) 10 ;;
  n <- py_int tenth ;;
  Ok {| parsing_success_rate := rate;
        keyword_extraction_accuracy := 90;
        formatting_compatibility := lit "High";
        estimated_ranking := lit "Top " ++ str_of_int (100 - Z.min 95 (Z.max 5 n)) ++ lit "%";
        processing_time := lit "< 2 seconds" |}.

Definition impact_words : list str :=
  map lit ["achieved"; "improved"; "increased"; "reduced"; "streamlined";
           "optimized"; "led"; "managed"; "developed"; "implemented";
           "delivered"; "exceeded"; "transformed"; "innovated"]%string.

Definition _extract_impact_words (self : EnhancedAnalyzer) (text : str) : list str :=
  List.filter (fun word => contains word (lower text)) impact_words.

Definition weak_phrases : list str :=
  map lit ["responsible for"; "duties included"; "worked on"; "helped with";
           "participated in"; "assisted with"; "involved in"]%string.

Definition _identify_weak_phrases (self : EnhancedAnalyzer) (text : str) : list str :=
  List.filter (fun phrase => contains phrase (lower text)) weak_phrases.

Definition _find_quantification_opportunities (self : EnhancedAnalyzer) (text : str) : list str :=
  let opportunities := [] in
  let opportunities :=
    if contains (lit "increased") (lower text) && negb (contains (lit "%") text)
    then opportunities ++ [lit "Add percentage to 'increased' achievements"]
    else opportunities in
  let opportunities :=
    if contains (lit "managed") (lower text) && contains (lit "team") (lower text)
    then opportunities ++ [lit "Specify team size (e.g., 'managed team of X people')"]
    else opportunities in
  let opportunities :=
    if contains (lit "project") (lower text)
    then opportunities ++ [lit "Add project timeline and budget if applicable"]
    else opportunities in
  opportunities.

Record DeepAnalysis := {
  sentiment_analysis : Sentiment;
  readability_score : Z;
  uniqueness_score : Z;
  deep_impact_words : list str;
  deep_weak_phrases : list str;
  quantification_opportunities : list str
}.

Definition _perform_deep_analysis (self : EnhancedAnalyzer)
    (resume_text job_description : str) : result DeepAnalysis :=
  let sentiment := _analyze_sentiment self resume_text in
  readability <- _calculate_readability self resume_text ;;
  uniqueness <- _calculate_uniqueness self resume_text ;;
  Ok {| sentiment_analysis := sentiment;
        readability_score := readability;
        uniqueness_score := uniqueness;
        deep_impact_words := _extract_impact_words self resume_text;
        deep_weak_phrases := _identify_weak_phrases self resume_text;
        quantification_opportunities := _find_quantification_opportunities self resume_text |}.

(** Zero, or a negative double. *)
Definition nonpos (x : spec_float) : Prop :=
  match x with
  | S754_zero _ | S754_finite true _ _ | S754_infinity true => True
  | _ => False
  end.

(** The character before position [pre ++ _], given the one before [pre]. *)
Definition prev_of (prev : option ascii) (pre : str) : option ascii :=
  match last pre with Some c => Some c | None => prev end.

(** * Properties *)

(** ** Binary64 rounding *)

Lemma digits2_pos_bounds (p : positive) :
  2 ^ (Zpos (digits2_pos p) - 1) <= Zpos p < 2 ^ Zpos (digits2_pos p).
Proof.
  induction p as [p IH | p IH | ]; cbn [digits2_pos].
  - rewrite Pos2Z.inj_succ.
    replace (Z.succ (Zpos (digits2_pos p)) - 1) with (Z.succ (Zpos (digits2_pos p) - 1)) by lia.
    rewrite !Z.pow_succ_r by lia. lia.
  - rewrite Pos2Z.inj_succ.
    replace (Z.succ (Zpos (digits2_pos p)) - 1) with (Z.succ (Zpos (digits2_pos p) - 1)) by lia.
    rewrite !Z.pow_succ_r by lia. lia.
  - cbn. lia.
Qed.

Lemma Zdigits2_nonneg m : 0 <= Zdigits2 m.
Proof. destruct m; cbn; lia. Qed.

Lemma Zdigits2_lt m : 0 <= m -> m < 2 ^ Zdigits2 m.
Proof.
  destruct m as [|p|p]; cbn [Zdigits2]; intros H; try lia.
  apply digits2_pos_bounds.
Qed.

Lemma Zdigits2_ge m : 0 < m -> 2 ^ (Zdigits2 m - 1) <= m.
Proof.
  destruct m as [|p|p]; cbn [Zdigits2]; intros H; try lia.
  apply digits2_pos_bounds.
Qed.

Lemma Zdigits2_le_of_lt m k : 0 <= m -> 0 <= k -> m < 2 ^ k -> Zdigits2 m <= k.
Proof.
  intros Hm Hk Hlt.
  destruct (Z.eq_dec m 0) as [->|Hne]; [cbn; lia|].
  assert (H1 : 2 ^ (Zdigits2 m - 1) <= m) by (apply Zdigits2_ge; lia).
  assert (H2 : 2 ^ (Zdigits2 m - 1) < 2 ^ k) by lia.
  apply Z.pow_lt_mono_r_iff in H2; lia.
Qed.

Lemma Zdigits2_le_of_le m k : 0 <= m -> 0 <= k -> m <= 2 ^ k -> Zdigits2 m <= k + 1.
Proof.
  intros Hm Hk Hle. apply Zdigits2_le_of_lt; try lia.
  rewrite Z.pow_add_r by lia. change (2 ^ 1) with 2. lia.
Qed.

Lemma shr_1_m mrs : 0 <= shr_m mrs -> shr_m (shr_1 mrs) = shr_m mrs / 2.
Proof.
  destruct mrs as [m r s]; cbn [shr_m].
  destruct m as [|[p|p|]|p]; intros H; cbn [shr_1 shr_m]; try lia.
  - reflexivity.
  - rewrite Pos2Z.inj_xI. apply Z.div_unique with 1; lia.
  - rewrite Pos2Z.inj_xO. apply Z.div_unique with 0; lia.
  - reflexivity.
Qed.

Lemma shr_1_exact mrs :
  0 <= shr_m mrs -> exact_rec mrs -> shr_m mrs mod 2 = 0 -> exact_rec (shr_1 mrs).
Proof.
  destruct mrs as [m r s]; unfold exact_rec; cbn [shr_m shr_r shr_s].
  intros Hm [-> ->] Hmod.
  destruct m as [|[p|p|]|p]; cbn [shr_1 shr_r shr_s orb]; try lia; try (split; reflexivity).
  - exfalso. rewrite Pos2Z.inj_xI in Hmod.
    rewrite Z.add_comm, Z.mul_comm, Z.mod_add in Hmod by lia. discriminate.
  - discriminate.
Qed.

Lemma mod_pow_split m a b :
  0 < a -> 0 < b -> m mod (a * b) = 0 -> m mod a = 0 /\ (m / a) mod b = 0.
Proof.
  intros Ha Hb H.
  apply Z.mod_divide in H; [|lia]. destruct H as [k ->].
  split.
  - apply Z.mod_divide; [lia|]. exists (k * b). ring.
  - replace (k * (a * b)) with (k * b * a) by ring.
    rewrite Z.div_mul by lia. apply Z.mod_divide; [lia|]. exists k. ring.
Qed.

Lemma iter_shr_1 (p : positive) :
  forall mrs, 0 <= shr_m mrs ->
    shr_m (SpecFloat.iter_pos shr_1 p mrs) = shr_m mrs / 2 ^ Zpos p /\
    (exact_rec mrs -> shr_m mrs mod 2 ^ Zpos p = 0 -> exact_rec (SpecFloat.iter_pos shr_1 p mrs)).
Proof.
  induction p as [p IH | p IH | ]; intros mrs Hm; cbn [SpecFloat.iter_pos].
  - assert (H0 : 0 <= shr_m (shr_1 mrs)).
    { rewrite shr_1_m by assumption. apply Z.div_pos; lia. }
    destruct (IH (shr_1 mrs) H0) as [E1 X1].
    assert (H1 : 0 <= shr_m (SpecFloat.iter_pos shr_1 p (shr_1 mrs))).
    { rewrite E1. apply Z.div_pos; [assumption|]. apply Z.pow_pos_nonneg; lia. }
    destruct (IH _ H1) as [E2 X2].
    assert (P : 0 < 2 ^ Zpos p) by (apply Z.pow_pos_nonneg; lia).
    assert (Epow : 2 ^ Zpos p~1 = 2 * (2 ^ Zpos p * 2 ^ Zpos p)).
    { rewrite <- Z.pow_add_r, <- (Z.pow_succ_r 2) by lia. f_equal. lia. }
    split.
    + rewrite E2, E1, shr_1_m by assumption.
      rewrite Epow, !Z.div_div by lia. reflexivity.
    + intros Hex Hmod. rewrite Epow in Hmod.
      apply mod_pow_split in Hmod; [|lia|lia]. destruct Hmod as [Ma Mb].
      apply mod_pow_split in Mb; [|lia|lia]. destruct Mb as [Mb Mc].
      apply X2.
      * apply X1; [apply shr_1_exact; assumption|]. rewrite shr_1_m by assumption. exact Mb.
      * rewrite E1, shr_1_m by assumption. exact Mc.
  - destruct (IH mrs Hm) as [E1 X1].
    assert (P : 0 < 2 ^ Zpos p) by (apply Z.pow_pos_nonneg; lia).
    assert (H1 : 0 <= shr_m (SpecFloat.iter_pos shr_1 p mrs)).
    { rewrite E1. apply Z.div_pos; lia. }
    destruct (IH _ H1) as [E2 X2].
    assert (Epow : 2 ^ Zpos p~0 = 2 ^ Zpos p * 2 ^ Zpos p).
    { rewrite <- Z.pow_add_r by lia. f_equal. lia. }
    split.
    + rewrite E2, E1, Epow, Z.div_div by lia. reflexivity.
    + intros Hex Hmod. rewrite Epow in Hmod.
      apply mod_pow_split in Hmod; [|lia|lia]. destruct Hmod as [Ma Mb].
      apply X2; [apply X1; assumption|]. rewrite E1. exact Mb.
  - split.
    + rewrite shr_1_m by assumption. reflexivity.
    + intros Hex Hmod. apply shr_1_exact; assumption.
Qed.

Lemma fexp_eq x : fexp prec emax x = Z.max (x - 53) (-1074).
Proof. reflexivity. Qed.

Lemma loc_of_exact_rec mrs : exact_rec mrs -> loc_of_shr_record mrs = loc_Exact.
Proof. destruct mrs as [m r s]; intros [H1 H2]; cbn in *; subst; reflexivity. Qed.

Lemma shr_record_of_loc_m m l : shr_m (shr_record_of_loc m l) = m.
Proof. destruct l as [|[]]; reflexivity. Qed.

Lemma loc_of_shr_record_of_loc m l : loc_of_shr_record (shr_record_of_loc m l) = l.
Proof. destruct l as [|[]]; reflexivity. Qed.

Lemma shr_fexp_spec m e l mrs e' :
  0 <= m -> shr_fexp prec emax m e l = (mrs, e') ->
  e' = Z.max e (fexp prec emax (Zdigits2 m + e)) /\
  shr_m mrs = m / 2 ^ (e' - e) /\
  0 <= shr_m mrs /\
  Zdigits2 (shr_m mrs) <= 53 /\
  (l = loc_Exact -> m mod 2 ^ (e' - e) = 0 -> loc_of_shr_record mrs = loc_Exact).
Proof.
  intros Hm. unfold shr_fexp, shr.
  pose proof (Zdigits2_lt m Hm) as Hd.
  pose proof (Zdigits2_nonneg m) as Hd0.
  rewrite fexp_eq.
  set (d := Zdigits2 m) in *.
  destruct (Z.max (d + e - 53) (-1074) - e) as [|p|p] eqn:En; intros [= <- <-].
  - assert (Ee : Z.max e (Z.max (d + e - 53) (-1074)) = e) by lia.
    rewrite Ee, Z.sub_diag, Z.pow_0_r, Z.div_1_r, shr_record_of_loc_m.
    split; [lia|]. split; [reflexivity|]. split; [lia|]. split.
    + apply Zdigits2_le_of_lt; try lia.
      apply Z.lt_le_trans with (1 := Hd). apply Z.pow_le_mono_r; lia.
    + intros -> _. apply loc_of_shr_record_of_loc.
  - assert (Ee : Z.max e (Z.max (d + e - 53) (-1074)) = e + Zpos p) by lia.
    rewrite Ee. replace (e + Zpos p - e) with (Zpos p) by lia.
    assert (H0 : 0 <= shr_m (shr_record_of_loc m l)) by (rewrite shr_record_of_loc_m; exact Hm).
    destruct (iter_shr_1 p _ H0) as [E1 X1]. rewrite shr_record_of_loc_m in E1.
    assert (P : 0 < 2 ^ Zpos p) by (apply Z.pow_pos_nonneg; lia).
    split; [lia|]. split; [exact E1|]. split; [|split].
    + rewrite E1. apply Z.div_pos; lia.
    + rewrite E1. apply Zdigits2_le_of_lt; try lia.
      * apply Z.div_pos; lia.
      * apply Z.div_lt_upper_bound; [lia|].
        rewrite <- Z.pow_add_r by lia.
        apply Z.lt_le_trans with (1 := Hd). apply Z.pow_le_mono_r; lia.
    + intros -> Hmod. apply loc_of_exact_rec, X1.
      * split; reflexivity.
      * exact Hmod.
  - assert (Ee : Z.max e (Z.max (d + e - 53) (-1074)) = e) by lia.
    rewrite Ee, Z.sub_diag, Z.pow_0_r, Z.div_1_r, shr_record_of_loc_m.
    split; [lia|]. split; [reflexivity|]. split; [lia|]. split.
    + apply Zdigits2_le_of_lt; try lia.
      apply Z.lt_le_trans with (1 := Hd). apply Z.pow_le_mono_r; lia.
    + intros -> _. apply loc_of_shr_record_of_loc.
Qed.

Lemma round_nearest_even_bounds m l :
  m <= round_nearest_even m l <= m + 1 /\
  (l = loc_Exact -> round_nearest_even m l = m).
Proof.
  unfold round_nearest_even. destruct l as [|[]]; try destruct (Z.even m); split; try lia; try discriminate; reflexivity.
Qed.

Lemma binary_round_aux_spec s mx ex lx :
  0 <= mx ->
  exists m1r e1 m2 e2,
    e1 = Z.max ex (fexp prec emax (Zdigits2 mx + ex)) /\
    mx / 2 ^ (e1 - ex) <= m1r <= mx / 2 ^ (e1 - ex) + 1 /\
    (lx = loc_Exact -> mx mod 2 ^ (e1 - ex) = 0 -> m1r = mx / 2 ^ (e1 - ex)) /\
    e2 = Z.max e1 (fexp prec emax (Zdigits2 m1r + e1)) /\
    m2 = m1r / 2 ^ (e2 - e1) /\
    0 <= m2 /\ Zdigits2 m2 <= 53 /\
    binary_round_aux prec emax s mx ex lx = pack s m2 e2.
Proof.
  intros Hm. unfold binary_round_aux.
  destruct (shr_fexp prec emax mx ex lx) as [mrs1 e1] eqn:S1.
  destruct (shr_fexp_spec _ _ _ _ _ Hm S1) as (E1 & M1 & P1 & D1 & X1).
  pose proof (round_nearest_even_bounds (shr_m mrs1) (loc_of_shr_record mrs1)) as [B1 B2].
  set (m1r := round_nearest_even (shr_m mrs1) (loc_of_shr_record mrs1)) in *.
  assert (Hm1r : 0 <= m1r) by lia.
  destruct (shr_fexp prec emax m1r e1 loc_Exact) as [mrs2 e2] eqn:S2.
  destruct (shr_fexp_spec _ _ _ _ _ Hm1r S2) as (E2 & M2 & P2 & D2 & X2).
  exists m1r, e1, (shr_m mrs2), e2.
  split; [exact E1|]. split; [rewrite <- M1; lia|]. split.
  { intros Hl Hmod. rewrite <- M1. apply B2. apply X1; assumption. }
  split; [exact E2|]. split; [exact M2|]. split; [exact P2|]. split; [exact D2|].
  unfold pack. destruct (shr_m mrs2); reflexivity.
Qed.

Lemma digits_sum_le K m e :
  0 < K <= 2 ^ 52 -> e <= 0 -> 0 <= m -> m <= K * 2 ^ (- e) ->
  Zdigits2 m + e <= 53.
Proof.
  intros HK He Hm Hle.
  assert (P : 0 < 2 ^ (- e)) by (apply Z.pow_pos_nonneg; lia).
  assert (H : m <= 2 ^ (52 - e)).
  { replace (52 - e) with (52 + - e) by lia. rewrite Z.pow_add_r by lia. nia. }
  apply Zdigits2_le_of_le in H; lia.
Qed.

Lemma binary_round_aux_below K mx ex lx :
  0 < K <= 2 ^ 52 -> 0 <= mx -> ex <= 0 ->
  mx + inexact_bit lx <= K * 2 ^ (- ex) ->
  below K (binary_round_aux prec emax false mx ex lx).
Proof.
  intros HK Hm Hex Hle.
  destruct (binary_round_aux_spec false mx ex lx Hm)
    as (m1r & e1 & m2 & e2 & E1 & B1 & X1 & E2 & M2 & P2 & D2 & ->).
  assert (Hib : 0 <= inexact_bit lx) by (destruct lx; cbn; lia).
  assert (Hd1 : Zdigits2 mx + ex <= 53) by (apply digits_sum_le with K; lia).
  rewrite fexp_eq in E1.
  assert (He1 : ex <= e1 <= 0) by lia.
  set (n1 := e1 - ex) in *.
  assert (Pn1 : 0 < 2 ^ n1) by (apply Z.pow_pos_nonneg; lia).
  assert (Pe1 : 0 < 2 ^ (- e1)) by (apply Z.pow_pos_nonneg; lia).
  assert (Esplit : K * 2 ^ (- ex) = K * 2 ^ (- e1) * 2 ^ n1).
  { rewrite <- Z.mul_assoc, <- Z.pow_add_r by lia. do 2 f_equal. lia. }
  assert (Hm1r : m1r <= K * 2 ^ (- e1)).
  { destruct (Z_lt_le_dec (mx / 2 ^ n1) (K * 2 ^ (- e1))) as [Hlt|Hge]; [lia|].
    pose proof (Z.mul_div_le mx (2 ^ n1) Pn1) as Hdiv.
    assert (Hmx : mx = K * 2 ^ (- e1) * 2 ^ n1) by nia.
    assert (Hl : lx = loc_Exact) by (destruct lx; [reflexivity|cbn in Hle; nia]).
    rewrite X1; [|exact Hl|rewrite Hmx; apply Z_mod_mult].
    rewrite Hmx, Z_div_mult by lia. lia. }
  assert (Hm1r0 : 0 <= m1r).
  { assert (0 <= mx / 2 ^ n1) by (apply Z.div_pos; lia). lia. }
  assert (Hd2 : Zdigits2 m1r + e1 <= 53) by (apply digits_sum_le with K; lia).
  rewrite fexp_eq in E2.
  assert (He2 : e1 <= e2 <= 0) by lia.
  set (n2 := e2 - e1) in *.
  assert (Pn2 : 0 < 2 ^ n2) by (apply Z.pow_pos_nonneg; lia).
  assert (Esplit2 : K * 2 ^ (- e1) = K * 2 ^ (- e2) * 2 ^ n2).
  { rewrite <- Z.mul_assoc, <- Z.pow_add_r by lia. do 2 f_equal. lia. }
  assert (Hm2 : m2 <= K * 2 ^ (- e2)).
  { rewrite M2. rewrite <- (Z_div_mult (K * 2 ^ (- e2)) (2 ^ n2)) by lia.
    apply Z.div_le_mono; lia. }
  unfold pack, below. destruct m2 as [|p|p]; [exact I| |lia].
  replace (e2 <=? 971) with true by (symmetry; apply Z.leb_le; lia).
  split; lia.
Qed.

Lemma div_eucl_div_mod a b : Z.div_eucl a b = (a / b, a mod b).
Proof. unfold Z.div, Z.modulo. destruct (Z.div_eucl a b); reflexivity. Qed.

Lemma new_location_exact_iff n k :
  (new_location n k = loc_Exact <-> k = 0) /\
  inexact_bit (new_location n k) = if k =? 0 then 0 else 1.
Proof.
  unfold new_location, new_location_even, new_location_odd.
  destruct (Z.even n); destruct (Z.eqb_spec k 0) as [->|Hk]; cbn;
    (split; [split; [intros H; first [reflexivity | discriminate H] | intros H; first [reflexivity | contradiction]] | reflexivity]).
Qed.

Lemma SFdiv_core_binary_spec m1 e1 m2 e2 :
  0 < m1 -> 0 < m2 ->
  exists q e' l,
    SFdiv_core_binary prec emax m1 e1 m2 e2 = (q, e', l) /\
    e' <= e1 - e2 /\
    q = (m1 * 2 ^ (e1 - e2 - e')) / m2 /\
    inexact_bit l = (if (m1 * 2 ^ (e1 - e2 - e')) mod m2 =? 0 then 0 else 1).
Proof.
  intros H1 H2. unfold SFdiv_core_binary.
  set (e' := Z.min _ _).
  assert (He' : e' <= e1 - e2) by (subst e'; lia).
  set (s := e1 - e2 - e').
  assert (Hs : 0 <= s) by (subst s; lia).
  assert (Em : match s with Zpos _ => Z.shiftl m1 s | Z0 => m1 | Zneg _ => 0 end = m1 * 2 ^ s).
  { destruct s as [|p|p] eqn:Es.
    - rewrite Z.pow_0_r. lia.
    - rewrite Z.shiftl_mul_pow2 by lia. reflexivity.
    - lia. }
  rewrite Em, div_eucl_div_mod.
  eexists _, _, _. split; [reflexivity|]. split; [exact He'|]. split; [reflexivity|].
  apply new_location_exact_iff.
Qed.

Lemma SFdiv_raw_below_1 c j :
  0 <= c <= j -> 0 < j -> below 1 (SFdiv prec emax (raw_of_Z c) (raw_of_Z j)).
Proof.
  intros Hc Hj.
  destruct j as [|pj|pj]; try lia.
  destruct c as [|pc|pc]; try lia; cbn [raw_of_Z SFdiv xorb].
  - exact I.
  - destruct (SFdiv_core_binary_spec (Zpos pc) 0 (Zpos pj) 0) as (q & e' & l & -> & He & Hq & Hl); [lia|lia|].
    cbn [Z.sub Z.opp] in *. rewrite Z.sub_0_l in *.
    assert (P : 0 < 2 ^ (- e')) by (apply Z.pow_pos_nonneg; lia).
    set (a := Zpos pc * 2 ^ (- e')) in *.
    assert (Ha : 0 <= a) by (subst a; lia).
    pose proof (Z.div_mod a (Zpos pj) ltac:(lia)) as Hdm.
    pose proof (Z.mod_pos_bound a (Zpos pj) ltac:(lia)) as Hmb.
    assert (Hq0 : 0 <= q) by (subst q; apply Z.div_pos; lia).
    apply binary_round_aux_below; try lia.
    rewrite Hl, Z.mul_1_l. subst q.
    destruct (Z.eqb_spec (a mod Zpos pj) 0) as [E0|N0]; subst a; nia.
Qed.

Lemma SFmul_below K K' x y :
  0 < K -> 0 < K' -> K * K' <= 2 ^ 52 ->
  below K x -> below K' y -> below (K * K') (SFmul prec emax x y).
Proof.
  intros HK HK' HKK Hx Hy.
  destruct x as [sx|sx| |[] mx ex]; try contradiction;
    destruct y as [sy|sy| |[] my ey]; try contradiction; cbn [SFmul xorb]; try exact I.
  destruct Hx as [Hex Hmx]. destruct Hy as [Hey Hmy].
  assert (P1 : 0 < 2 ^ (- ex)) by (apply Z.pow_pos_nonneg; lia).
  assert (P2 : 0 < 2 ^ (- ey)) by (apply Z.pow_pos_nonneg; lia).
  apply binary_round_aux_below; try lia.
  cbn [inexact_bit]. rewrite Z.add_0_r, Pos2Z.inj_mul.
  replace (- (ex + ey)) with (- ex + - ey) by lia.
  rewrite Z.pow_add_r by lia. nia.
Qed.

Lemma Ztrunc_below K x :
  0 <= K -> below K x -> exists z, Ztrunc x = Some z /\ 0 <= z <= K.
Proof.
  intros HK Hx. destruct x as [s|s| |[] m e]; try contradiction; cbn [Ztrunc cond_Zopp].
  - exists 0. split; [reflexivity|lia].
  - destruct Hx as [He Hm].
    assert (P : 0 < 2 ^ (- e)) by (apply Z.pow_pos_nonneg; lia).
    destruct (Z.ltb_spec e 0) as [Hlt|Hge].
    + eexists. split; [reflexivity|]. split.
      * apply Z.div_pos; lia.
      * apply Z.div_le_upper_bound; lia.
    + assert (e = 0) by lia. subst e. eexists. split; [reflexivity|].
      change (- 0) with 0 in *. rewrite Z.pow_0_r in *. lia.
Qed.

Lemma SFdiv_self s m e :
  SFdiv prec emax (S754_finite s m e) (S754_finite s m e) = float_one.
Proof.
  cbn [SFdiv]. unfold SFdiv_core_binary.
  replace (Zdigits2 (Zpos m) + e - (Zdigits2 (Zpos m) + e)) with 0 by lia.
  rewrite !Z.sub_diag.
  change (Z.min (fexp prec emax 0) 0) with (-53).
  change (0 - -53) with 53.
  cbv iota.
  assert (E : Z.div_eucl (Z.shiftl (Zpos m) 53) (Zpos m) = (2 ^ 53, 0)).
  { rewrite Z.shiftl_mul_pow2 by lia.
    rewrite div_eucl_div_mod.
    rewrite (Z.mul_comm (Zpos m)), Z_div_mult, Z_mod_mult by lia. reflexivity. }
  rewrite E.
  replace (new_location (Zpos m) 0) with loc_Exact
    by (unfold new_location; destruct (Z.even (Zpos m)); reflexivity).
  rewrite xorb_nilpotent.
  vm_compute. reflexivity.
Qed.

Lemma pack_canonical s m e : 0 <= m -> Zdigits2 m <= 53 -> canonical (pack s m e).
Proof.
  intros Hm Hd. unfold pack. destruct m as [|p|p]; [exact I| |lia].
  destruct (e <=? 971); [|exact I]. cbn [canonical].
  apply Z.lt_le_trans with (1 := Zdigits2_lt (Zpos p) Hm).
  apply Z.pow_le_mono_r; lia.
Qed.

Lemma binary_round_aux_canonical s mx ex lx :
  0 <= mx -> canonical (binary_round_aux prec emax s mx ex lx).
Proof.
  intros Hm.
  destruct (binary_round_aux_spec s mx ex lx Hm)
    as (m1r & e1 & m2 & e2 & _ & _ & _ & _ & _ & P2 & D2 & ->).
  apply pack_canonical; assumption.
Qed.

Lemma binary_normalize_canonical m e sz : canonical (binary_normalize prec emax m e sz).
Proof.
  destruct m as [|p|p]; cbn [binary_normalize]; [exact I| |];
    unfold binary_round;
    destruct (shl_align p e _) as [mz ez]; apply binary_round_aux_canonical; lia.
Qed.

Lemma SFmul_canonical x y : canonical (SFmul prec emax x y).
Proof.
  destruct x as [sx|sx| |sx mx ex], y as [sy|sy| |sy my ey]; cbn [SFmul]; try exact I.
  apply binary_round_aux_canonical. lia.
Qed.

Lemma SFsub_canonical x y : canonical x -> canonical y -> canonical (SFsub prec emax x y).
Proof.
  intros Hx Hy.
  destruct x as [sx|sx| |sx mx ex], y as [sy|sy| |sy my ey]; cbn [SFsub]; try exact I;
    try exact Hx; try exact Hy.
  - destruct sx, sy; exact I.
  - destruct sx, sy; exact I.
  - apply binary_normalize_canonical.
Qed.

Lemma float_of_int_100 : float_of_int 100 = float_100.
Proof. vm_compute. reflexivity. Qed.

Lemma float_of_int_0 : float_of_int 0 = S754_zero false.
Proof. vm_compute. reflexivity. Qed.

Lemma strictly_inside_0_100 x :
  canonical x -> SFltb x float_100 = true -> SFltb (S754_zero false) x = true ->
  exists z, Ztrunc x = Some z /\ 0 <= z < 100.
Proof.
  unfold float_100. intros Hc H100 H0.
  destruct x as [s|s| |s m e]; try discriminate.
  - destruct s; discriminate.
  - destruct s; [discriminate|].
    cbn [canonical] in Hc.
    unfold SFltb, SFcompare in H100.
    cbn [Ztrunc cond_Zopp].
    destruct (Z.compare_spec e (-46)) as [-> | Hlt | Hgt]; try discriminate.
    + rewrite Pos.compare_cont_spec in H100. cbn [Pos.switch_Eq] in H100.
      destruct (Pos.compare_spec m 7036874417766400) as [|Hm|]; try discriminate.
      assert (Hm' : Z.pos m < 7036874417766400) by exact Hm.
      clear Hm H100 H0.
      eexists. split; [reflexivity|]. change (-46 <? 0) with true. cbv iota.
      change (2 ^ (- -46)) with 70368744177664.
      split; [apply Z.div_pos; lia|]. apply Z.div_lt_upper_bound; lia.
    + eexists. split; [reflexivity|].
      replace (e <? 0) with true by (symmetry; apply Z.ltb_lt; lia).
      assert (P : 0 < 2 ^ (- e)) by (apply Z.pow_pos_nonneg; lia).
      split; [apply Z.div_pos; lia|]. apply Z.div_lt_upper_bound; [lia|].
      assert (2 ^ 47 <= 2 ^ (- e)) by (apply Z.pow_le_mono_r; lia).
      change (2 ^ 53) with (2 ^ 47 * 64) in Hc. nia.
Qed.
(** ** Characters and text *)

Lemma isspace_lower_char c : isspace (lower_char c) = isspace c.
Proof. destruct c as [[] [] [] [] [] [] [] []]; vm_compute; reflexivity. Qed.

Lemma lower_char_idem c : lower_char (lower_char c) = lower_char c.
Proof. destruct c as [[] [] [] [] [] [] [] []]; vm_compute; reflexivity. Qed.

Lemma isdecimal_isword c : isdecimal c = true -> isword c = true.
Proof. destruct c as [[] [] [] [] [] [] [] []]; vm_compute; intros H; first [reflexivity | discriminate H]. Qed.

Lemma lower_app (s t : str) : lower (s ++ t) = lower s ++ lower t.
Proof. apply map_app. Qed.

Lemma lower_idem (s : str) : lower (lower s) = lower s.
Proof.
  unfold lower. rewrite map_map. apply map_ext. intros c. apply lower_char_idem.
Qed.

Lemma split_from_lower (s cur : str) :
  split_from (lower cur) (lower s) = map lower (split_from cur s).
Proof.
  revert cur. induction s as [|c s IH]; intros cur; cbn [lower map split_from].
  - destruct cur; reflexivity.
  - rewrite isspace_lower_char. destruct (isspace c).
    + destruct cur as [|a cur]; cbn [lower map].
      * apply (IH []).
      * f_equal. apply (IH []).
    + change [lower_char c] with (lower [c]). rewrite <- lower_app.
      apply IH.
Qed.

Lemma split_lower (s : str) : split (lower s) = map lower (split s).
Proof. apply (split_from_lower s []). Qed.

Lemma length_split_from (s cur : str) :
  length (split_from cur s) =
  match cur with [] => word_starts true s | _ :: _ => S (word_starts false s) end.
Proof.
  revert cur. induction s as [|c s IH]; intros cur; cbn [split_from word_starts].
  - destruct cur; reflexivity.
  - destruct (isspace c).
    + destruct cur as [|a cur]; cbn [length]; rewrite (IH []); reflexivity.
    + rewrite IH. destruct cur as [|a cur]; cbn [app]; reflexivity.
Qed.

Lemma len_split (s : str) : len (split s) = count_words s.
Proof. unfold len, split, count_words. rewrite length_split_from. reflexivity. Qed.

Lemma length_split_on_from sep (s cur : str) :
  length (split_on_from sep cur s) = S (length (List.filter (Ascii.eqb sep) s)).
Proof.
  revert cur. induction s as [|c s IH]; intros cur; cbn [split_on_from List.filter].
  - reflexivity.
  - rewrite (Ascii.eqb_sym sep c). destruct (Ascii.eqb c sep); cbn [length]; rewrite IH; reflexivity.
Qed.

Lemma len_split_on sep (s : str) : len (split_on sep s) = count_fragments sep s.
Proof.
  unfold split_on, count_fragments, len. rewrite length_split_on_from. lia.
Qed.

Lemma startswith_spec (p s : str) :
  startswith p s = true <-> exists post, s = p ++ post.
Proof.
  revert s. induction p as [|a p IH]; intros s; cbn [startswith].
  - split; [intros _; exists s; reflexivity | reflexivity].
  - destruct s as [|b s].
    + split; [discriminate | intros [post H]; discriminate H].
    + rewrite andb_true_iff, Ascii.eqb_eq, IH. split.
      * intros [-> [post ->]]. exists post. reflexivity.
      * intros [post H]. cbn in H. injection H as -> ->. split; [reflexivity | exists post; reflexivity].
Qed.

Lemma contains_spec (needle hay : str) :
  contains needle hay = true <-> Substring needle hay.
Proof.
  unfold Substring. induction hay as [|c hay IH]; cbn [contains].
  - rewrite orb_false_r, startswith_spec. split.
    + intros [post H]. exists [], post. exact H.
    + intros [pre [post H]]. destruct pre as [|a pre]; [|discriminate H].
      exists post. exact H.
  - rewrite orb_true_iff, startswith_spec, IH. split.
    + intros [[post H] | [pre [post H]]].
      * exists [], post. exact H.
      * exists (c :: pre), post. rewrite H. reflexivity.
    + intros [pre [post H]]. destruct pre as [|a pre].
      * left. exists post. exact H.
      * right. cbn in H. injection H as -> ->. exists pre, post. reflexivity.
Qed.

Lemma contains_lower_idem (w t : str) : contains w (lower (lower t)) = contains w (lower t).
Proof. rewrite lower_idem. reflexivity. Qed.

Lemma nonblank_nil : nonblank [].
Proof. reflexivity. Qed.

Lemma nonblank_cons c w : nonblank (c :: w) <-> isspace c = false /\ nonblank w.
Proof.
  unfold nonblank. cbn [forallb]. rewrite andb_true_iff, negb_true_iff. reflexivity.
Qed.

Lemma nonblank_app u v : nonblank (u ++ v) <-> nonblank u /\ nonblank v.
Proof. unfold nonblank. rewrite forallb_app, andb_true_iff. reflexivity. Qed.

Lemma leading_word_blank cur w c s :
  isspace c = true -> leading_word cur w (c :: s) <-> w = cur /\ cur <> [].
Proof.
  intros Hc. split.
  - intros (Hw & r & post & E & Hr & Hp & ->).
    destruct r as [|a r].
    + rewrite app_nil_r in *. split; [reflexivity | exact Hw].
    + cbn in E. injection E as <- _. apply nonblank_cons in Hr. destruct Hr as [Hr _]. congruence.
  - intros [-> Hne]. split; [exact Hne|].
    exists [], (c :: s). rewrite app_nil_r. repeat split; try reflexivity. exact Hc.
Qed.

Lemma leading_word_nonblank cur w c s :
  isspace c = false -> leading_word cur w (c :: s) <-> leading_word (cur ++ [c]) w s.
Proof.
  intros Hc. split.
  - intros (Hw & r & post & E & Hr & Hp & ->).
    destruct r as [|a r].
    + cbn in E. subst post. cbn in Hp. congruence.
    + cbn in E. injection E as <- ->. apply nonblank_cons in Hr. destruct Hr as [_ Hr].
      split; [exact Hw|]. exists r, post. rewrite <- app_assoc. repeat split; assumption.
  - intros (Hw & r & post & -> & Hr & Hp & ->).
    split; [exact Hw|]. exists (c :: r), post. rewrite <- app_assoc.
    repeat split; try assumption; try reflexivity. apply nonblank_cons. split; assumption.
Qed.

Lemma inner_word_nil w : ~ inner_word w [].
Proof.
  intros (pre & post & E & _ & _ & (p & c & -> & _) & _).
  destruct p; discriminate E.
Qed.

Lemma inner_word_blank w c s :
  isspace c = true -> inner_word w (c :: s) <-> leading_word [] w s \/ inner_word w s.
Proof.
  intros Hc. split.
  - intros (pre & post & E & Hw & Hn & (p & c0 & -> & Hc0) & Hp).
    destruct p as [|a p].
    + cbn in E. injection E as <- ->. left. split; [exact Hw|].
      exists w, post. repeat split; assumption.
    + cbn in E. injection E as <- ->. right.
      exists (p ++ [c0]), post. repeat split; try assumption. exists p, c0. split; [reflexivity | exact Hc0].
  - intros [(Hw & r & post & -> & Hr & Hp & ->) | (pre & post & -> & Hw & Hn & (p & c0 & -> & Hc0) & Hp)].
    + cbn [app] in *. exists [c], post. repeat split; try assumption.
      exists [], c. split; [reflexivity | exact Hc].
    + exists (c :: p ++ [c0]), post. repeat split; try assumption.
      exists (c :: p), c0. split; [reflexivity | exact Hc0].
Qed.

Lemma inner_word_nonblank w c s :
  isspace c = false -> inner_word w (c :: s) <-> inner_word w s.
Proof.
  intros Hc. split.
  - intros (pre & post & E & Hw & Hn & (p & c0 & -> & Hc0) & Hp).
    destruct p as [|a p].
    + cbn in E. injection E as <- _. congruence.
    + cbn in E. injection E as <- ->.
      exists (p ++ [c0]), post. repeat split; try assumption. exists p, c0. split; [reflexivity | exact Hc0].
  - intros (pre & post & -> & Hw & Hn & (p & c0 & -> & Hc0) & Hp).
    exists (c :: p ++ [c0]), post. repeat split; try assumption.
    exists (c :: p), c0. split; [reflexivity | exact Hc0].
Qed.

Lemma split_from_spec (s cur w : str) :
  w ∈ split_from cur s <-> leading_word cur w s \/ inner_word w s.
Proof.
  revert cur. induction s as [|c s IH]; intros cur; cbn [split_from].
  - split.
    + intros H. left. destruct cur as [|a cur]; [inversion H|].
      apply list_elem_of_singleton in H. subst w. split; [discriminate|].
      exists [], []. rewrite !app_nil_r. repeat split; reflexivity.
    + intros [(Hw & r & post & E & _ & _ & ->) | H]; [|destruct (inner_word_nil _ H)].
      symmetry in E. apply app_eq_nil in E. destruct E as [-> ->]. rewrite app_nil_r in *.
      destruct cur as [|a cur]; [congruence|]. apply list_elem_of_singleton. reflexivity.
  - destruct (isspace c) eqn:Hc.
    + rewrite (leading_word_blank cur w c s Hc), (inner_word_blank w c s Hc), <- (IH []).
      destruct cur as [|a cur].
      * split; [intros H; right; exact H | intros [[_ H] | H]; [congruence | exact H]].
      * rewrite elem_of_cons. split.
        -- intros [-> | H]; [left; split; [reflexivity | discriminate] | right; exact H].
        -- intros [[-> _] | H]; [left; reflexivity | right; exact H].
    + rewrite (leading_word_nonblank cur w c s Hc), (inner_word_nonblank w c s Hc). apply IH.
Qed.

Theorem split_spec (t w : str) : w ∈ split t <-> word_of w t.
Proof.
  unfold split. rewrite split_from_spec. unfold leading_word, inner_word, word_of, ends_blank. split.
  - intros [(Hw & r & post & -> & Hr & Hp & ->) | (pre & post & -> & Hw & Hn & Hpre & Hp)].
    + exists [], post. cbn [app]. repeat split; try assumption. left. reflexivity.
    + exists pre, post. repeat split; try assumption. right. exact Hpre.
  - intros (pre & post & -> & Hw & Hn & [-> | Hpre] & Hp).
    + left. split; [exact Hw|]. exists w, post. repeat split; assumption.
    + right. exists pre, post. repeat split; assumption.
Qed.

(** ** Numbers of the scores *)

Lemma float_of_int_15 : float_of_int 15 = S754_finite false 8444249301319680 (-49).
Proof. vm_compute. reflexivity. Qed.

Lemma float_of_int_2 : float_of_int 2 = S754_finite false 4503599627370496 (-51).
Proof. vm_compute. reflexivity. Qed.

Lemma below_float_100 : below 100 float_100.
Proof. split; [lia | apply Z.leb_le; vm_compute; reflexivity]. Qed.

Lemma below_float_1_5 : below 2 float_1_5.
Proof. split; [lia | apply Z.leb_le; vm_compute; reflexivity]. Qed.

Lemma below_mono K K' x : K <= K' -> below K x -> below K' x.
Proof.
  intros HK. destruct x as [s|s| |[] m e]; cbn [below]; try tauto.
  intros [He Hm]. split; [exact He|].
  assert (0 < 2 ^ (- e)) by (apply Z.pow_pos_nonneg; lia). nia.
Qed.

Lemma py_int_below K f :
  0 <= K -> below K f -> exists z, py_int (PyFloat f) = Ok z /\ Ztrunc f = Some z /\ 0 <= z <= K.
Proof.
  intros HK Hf. destruct (Ztrunc_below K f HK Hf) as (z & Hz & Hb).
  exists z. split; [|split; assumption].
  destruct f as [s|s| |s m e]; cbn [py_int]; try contradiction; rewrite Hz; reflexivity.
Qed.

Lemma percent_of_below c j : 0 <= c <= j -> 0 < j -> below 100 (percent_of c j).
Proof.
  intros Hc Hj. unfold percent_of. rewrite float_of_int_100.
  change 100 with (1 * 100) at 1.
  apply SFmul_below; [lia | lia | apply Z.leb_le; vm_compute; reflexivity | | ].
  - apply SFdiv_raw_below_1; assumption.
  - exact below_float_100.
Qed.

Lemma scaled_percent_of_below u t : 0 <= u <= t -> 0 < t -> below 200 (scaled_percent_of u t).
Proof.
  intros Hu Ht. unfold scaled_percent_of.
  change 200 with (100 * 2).
  apply SFmul_below; [lia | lia | apply Z.leb_le; vm_compute; reflexivity | | ].
  - apply percent_of_below; assumption.
  - exact below_float_1_5.
Qed.

Lemma percent_of_self n : 0 < n -> percent_of n n = float_100.
Proof.
  intros Hn. unfold percent_of. destruct n as [|p|p]; try lia.
  cbn [raw_of_Z]. rewrite SFdiv_self, float_of_int_100. vm_compute. reflexivity.
Qed.

Lemma int_truediv_ok a b :
  b <> 0 -> int_truediv a b = Ok (PyFloat (SFdiv prec emax (raw_of_Z a) (raw_of_Z b))).
Proof. intros Hb. unfold int_truediv. destruct (Z.eqb_spec b 0); [contradiction | reflexivity]. Qed.

(** *** NaN never arises from the operations on counts *)

Lemma pack_not_nan s m e : 0 <= m -> not_nan (pack s m e).
Proof. intros Hm. unfold pack. destruct m; [exact I| |lia]. destruct (e <=? 971); exact I. Qed.

Lemma binary_round_aux_not_nan s mx ex lx :
  0 <= mx -> not_nan (binary_round_aux prec emax s mx ex lx).
Proof.
  intros Hm.
  destruct (binary_round_aux_spec s mx ex lx Hm)
    as (m1r & e1 & m2 & e2 & _ & _ & _ & _ & _ & P2 & _ & ->).
  apply pack_not_nan. exact P2.
Qed.

Lemma binary_normalize_not_nan m e sz : not_nan (binary_normalize prec emax m e sz).
Proof.
  destruct m as [|p|p]; cbn [binary_normalize]; [exact I| |];
    unfold binary_round;
    destruct (shl_align p e _) as [mz ez]; apply binary_round_aux_not_nan; lia.
Qed.

Lemma SFdiv_raw_not_nan a b : 0 <= a -> 0 < b -> not_nan (SFdiv prec emax (raw_of_Z a) (raw_of_Z b)).
Proof.
  intros Ha Hb. destruct b as [|pb|pb]; try lia. destruct a as [|pa|pa]; try lia; cbn [raw_of_Z SFdiv].
  - exact I.
  - destruct (SFdiv_core_binary_spec (Zpos pa) 0 (Zpos pb) 0) as (q & e' & l & -> & He & Hq & Hl); [lia|lia|].
    apply binary_round_aux_not_nan. subst q. apply Z.div_pos; [|lia].
    assert (0 < 2 ^ (0 - 0 - e')) by (apply Z.pow_pos_nonneg; lia). lia.
Qed.

Lemma SFsub_finite_r_not_nan x s m e :
  not_nan x -> not_nan (SFsub prec emax x (S754_finite s m e)).
Proof.
  destruct x as [sx|sx| |sx mx ex]; cbn [SFsub not_nan]; try tauto.
  intros _. apply binary_normalize_not_nan.
Qed.

Lemma SFsub_finite_l_not_nan y s m e :
  not_nan y -> not_nan (SFsub prec emax (S754_finite s m e) y).
Proof.
  destruct y as [sy|sy| |sy my ey]; cbn [SFsub not_nan]; try tauto.
  intros _. apply binary_normalize_not_nan.
Qed.

Lemma SFmul_finite_r_not_nan x s m e :
  not_nan x -> not_nan (SFmul prec emax x (S754_finite s m e)).
Proof.
  destruct x as [sx|sx| |sx mx ex]; cbn [SFmul not_nan]; try tauto.
  intros _. apply binary_round_aux_not_nan. lia.
Qed.

Lemma readability_value_not_nan w s : 0 <= w -> 0 < s -> not_nan (readability_value w s).
Proof.
  intros Hw Hs. unfold readability_value.
  rewrite float_of_int_100, float_of_int_15, float_of_int_2. unfold float_100.
  apply SFsub_finite_l_not_nan, SFmul_finite_r_not_nan, SFsub_finite_r_not_nan, SFdiv_raw_not_nan; assumption.
Qed.

Lemma readability_value_canonical w s : canonical (readability_value w s).
Proof.
  unfold readability_value. apply SFsub_canonical.
  - rewrite float_of_int_100. cbn. lia.
  - apply SFmul_canonical.
Qed.

(** *** Clamping to [0, 100] *)

Lemma SFcompare_pos_swap m1 e1 m2 e2 :
  SFcompare (S754_finite false m1 e1) (S754_finite false m2 e2) =
  option_map CompOpp (SFcompare (S754_finite false m2 e2) (S754_finite false m1 e1)).
Proof.
  cbn [SFcompare option_map]. f_equal.
  rewrite (Z.compare_antisym e1 e2).
  destruct (e1 ?= e2); cbn [CompOpp]; try reflexivity.
  change Eq with (CompOpp Eq) at 1.
  rewrite <- Pos.compare_cont_antisym. reflexivity.
Qed.

Lemma clamp_agrees x :
  canonical x -> not_nan x ->
  exists z,
    py_int (py_max (PyInt 0) (py_min (PyInt 100) (PyFloat x))) = Ok z /\
    clamp_percent x = Some z /\ 0 <= z <= 100.
Proof.
  intros Hc Hn. unfold py_min, py_max, clamp_percent, num_lt, as_float.
  rewrite float_of_int_100, float_of_int_0.
  destruct x as [s|s| |s m e]; try contradiction.
  - exists 0. destruct s; cbn; repeat split; lia.
  - destruct s; [exists 0 | exists 100]; cbn; repeat split; lia.
  - destruct s.
    + exists 0. cbn. repeat split; lia.
    + assert (E0 : SFleb (S754_finite false m e) (S754_zero false) = false) by reflexivity.
      assert (E1 : SFltb (S754_zero false) (S754_finite false m e) = true) by reflexivity.
      rewrite E0.
      assert (Esw : SFleb float_100 (S754_finite false m e) = negb (SFltb (S754_finite false m e) float_100)).
      { unfold SFleb, SFltb, float_100. rewrite (SFcompare_pos_swap m e).
        cbn [SFcompare option_map].
        destruct (-46 ?= e); [destruct (Pos.compare_cont Eq 7036874417766400 m)| |]; reflexivity. }
      rewrite Esw.
      destruct (SFltb (S754_finite false m e) float_100) eqn:Hlt; cbn [negb].
      * rewrite E1.
        destruct (strictly_inside_0_100 _ Hc Hlt E1) as (z & Hz & Hb).
        exists z. cbn [py_int]. rewrite Hz. repeat split; try lia. 
      * exists 100. cbn. repeat split; lia.
Qed.

(** ** Sets of words *)

Lemma size_enum (X : gset str) (enum : list str) :
  NoDup enum -> (forall w, w ∈ enum <-> w ∈ X) -> size X = length enum.
Proof.
  intros Hnd H. change (size X) with (length (elements X)).
  apply Permutation_length, NoDup_Permutation.
  - apply NoDup_elements.
  - exact Hnd.
  - intros w. rewrite elem_of_elements, H. reflexivity.
Qed.

Lemma size_zero_empty (X : gset str) : size X = 0%nat <-> X = ∅.
Proof. rewrite size_empty_iff. apply leibniz_equiv_iff. Qed.

Lemma size_list_to_set_le (l : list str) : (size (list_to_set l : gset str) <= length l)%nat.
Proof.
  change (size (list_to_set l : gset str)) with (length (elements (list_to_set l : gset str))).
  apply NoDup_incl_length.
  - apply NoDup_ListNoDup, NoDup_elements.
  - intros w Hw. apply list_elem_of_In in Hw. apply list_elem_of_In.
    apply elem_of_elements, elem_of_list_to_set in Hw. exact Hw.
Qed.

Lemma words_lower_spec (t w : str) :
  w ∈ (list_to_set (split (lower t)) : gset str) <-> word_of w (lower t).
Proof. rewrite elem_of_list_to_set. apply split_spec. Qed.

Lemma word_of_lower (t w : str) : word_of w t -> word_of (lower w) (lower t).
Proof.
  intros H. apply split_spec. rewrite split_lower. apply list_elem_of_fmap.
  exists w. split; [reflexivity|]. apply split_spec. exact H.
Qed.

(** ** calculate_keyword_density *)

Lemma keyword_density_cases (self : SmartATSProElite) (resume_text job_description : str) :
  let jd_words : gset str := list_to_set (split (lower job_description)) in
  let common : gset str := list_to_set (split (lower resume_text)) ∩ jd_words in
  (jd_words = ∅ -> calculate_keyword_density self resume_text job_description = Ok 0) /\
  (jd_words <> ∅ ->
   exists z,
     calculate_keyword_density self resume_text job_description = Ok z /\
     Ztrunc (percent_of (Z.of_nat (size common)) (Z.of_nat (size jd_words))) = Some z /\
     0 <= z <= 100).
Proof.
  intros jd_words common. unfold calculate_keyword_density.
  fold jd_words. fold common. split.
  - intros E. rewrite bool_decide_eq_true_2 by exact E. reflexivity.
  - intros NE. rewrite bool_decide_eq_false_2 by exact NE.
    assert (Hj : size jd_words <> 0%nat) by (rewrite size_zero_empty; exact NE).
    assert (Hc : (size common <= size jd_words)%nat).
    { apply subseteq_size. subst common. apply intersection_subseteq_r. }
    rewrite int_truediv_ok by lia. cbn [bind num_mul as_float].
    change (SFmul prec emax _ (float_of_int 100))
      with (percent_of (Z.of_nat (size common)) (Z.of_nat (size jd_words))).
    apply py_int_below; [lia|]. apply percent_of_below; lia.
Qed.

(** C2: the keyword density is the truncated binary64 value of
    [c / j * 100], where [c] counts the distinct lowercased words common
    to both texts and [j] the distinct lowercased words of the job
    description; with no word in the job description it is 0. *)
Theorem C2_keyword_density (self : SmartATSProElite) (resume_text job_description : str)
    (common jd : list str) :
  NoDup common ->
  (forall w, w ∈ common <-> word_of w (lower resume_text) /\ word_of w (lower job_description)) ->
  NoDup jd ->
  (forall w, w ∈ jd <-> word_of w (lower job_description)) ->
  (jd = [] -> calculate_keyword_density self resume_text job_description = Ok 0) /\
  (jd <> [] ->
   exists z,
     calculate_keyword_density self resume_text job_description = Ok z /\
     Ztrunc (percent_of (len common) (len jd)) = Some z).
Proof.
  intros Hnc Hc Hnj Hj.
  destruct (keyword_density_cases self resume_text job_description) as [H0 H1].
  cbv zeta in H0, H1.
  set (J := list_to_set (split (lower job_description)) : gset str) in *.
  set (R := list_to_set (split (lower resume_text)) : gset str) in *.
  assert (EJ : size J = length jd).
  { apply size_enum; [exact Hnj|]. intros w. rewrite Hj. symmetry. apply words_lower_spec. }
  assert (EC : size (R ∩ J) = length common).
  { apply size_enum; [exact Hnc|]. intros w.
    rewrite Hc, elem_of_intersection. unfold R, J. rewrite !words_lower_spec. reflexivity. }
  split.
  - intros ->. apply H0. apply size_zero_empty. rewrite EJ. reflexivity.
  - intros Hne.
    destruct H1 as (z & Hz & Ht & _).
    { intros E. apply size_zero_empty in E. rewrite EJ in E. destruct jd; [congruence | discriminate E]. }
    exists z. split; [exact Hz|]. unfold len. rewrite <- EC, <- EJ. exact Ht.
Qed.

Ltac words_of_literals :=
  intros w; rewrite <- ?split_spec;
  repeat match goal with
         | |- context [split ?t] =>
             let v := eval vm_compute in (split t) in
             change (split t) with v
         end;
  rewrite ?elem_of_cons, ?elem_of_nil;
  intuition (subst; try discriminate; auto).

Ltac nodup_literals :=
  apply NoDup_ListNoDup; repeat constructor; cbn; intuition discriminate.

Lemma C2_keyword_density_witness :
  ([lit "a"; lit "c"] = [] ->
   calculate_keyword_density {| session := ∅; current_tab := [] |} (lit "A b") (lit "a  c") = Ok 0) /\
  ([lit "a"; lit "c"] <> [] ->
   exists z,
     calculate_keyword_density {| session := ∅; current_tab := [] |} (lit "A b") (lit "a  c") = Ok z /\
     Ztrunc (percent_of (len [lit "a"]) (len [lit "a"; lit "c"])) = Some z).
Proof.
  apply (C2_keyword_density _ (lit "A b") (lit "a  c") [lit "a"] [lit "a"; lit "c"]).
  - nodup_literals.
  - words_of_literals.
  - nodup_literals.
  - words_of_literals.
Defined.

(** C10: a text with at least one word, compared with itself, has
    keyword density 100. *)
Theorem C10_keyword_density_self (self : SmartATSProElite) (text : str) :
  (exists w, word_of w text) ->
  calculate_keyword_density self text text = Ok 100.
Proof.
  intros [w Hw].
  destruct (keyword_density_cases self text text) as [_ H1]. cbv zeta in H1.
  set (J := list_to_set (split (lower text)) : gset str) in *.
  assert (HJ : J <> ∅).
  { intros E. apply word_of_lower, words_lower_spec in Hw. fold J in Hw.
    rewrite E in Hw. exact (not_elem_of_empty (lower w) Hw). }
  destruct (H1 HJ) as (z & Hz & Ht & _).
  rewrite (intersection_idemp_L J) in Ht.
  rewrite percent_of_self in Ht.
  - rewrite Hz. f_equal. cbn in Ht. injection Ht as <-. vm_compute. reflexivity.
  - assert (size J <> 0%nat) by (rewrite size_zero_empty; exact HJ). lia.
Qed.

Lemma C10_keyword_density_self_witness :
  calculate_keyword_density {| session := ∅; current_tab := [] |} (lit "Go go") (lit "Go go") = Ok 100.
Proof.
  apply (C10_keyword_density_self _ (lit "Go go")).
  exists (lit "Go"). apply split_spec. vm_compute. apply list_elem_of_here.
Defined.

(** ** _calculate_uniqueness *)

Lemma uniqueness_cases (self : EnhancedAnalyzer) (text : str) :
  let unique_words : gset str := list_to_set (split (lower text)) in
  (count_words text = 0 -> _calculate_uniqueness self text = Ok 0) /\
  (0 < count_words text ->
   exists z,
     _calculate_uniqueness self text = Ok (Z.min 100 z) /\
     Ztrunc (scaled_percent_of (Z.of_nat (size unique_words)) (count_words text)) = Some z /\
     0 <= z <= 200).
Proof.
  intros unique_words. unfold _calculate_uniqueness. fold unique_words.
  rewrite len_split. split.
  - intros ->. vm_compute. reflexivity.
  - intros Hpos. replace (0 <? count_words text) with true by (symmetry; apply Z.ltb_lt; exact Hpos).
    assert (Hu : Z.of_nat (size unique_words) <= count_words text).
    { rewrite <- len_split. unfold len.
      pose proof (size_list_to_set_le (split (lower text))) as H.
      assert (E : length (split (lower text)) = length (split text))
        by (rewrite split_lower; apply length_map).
      rewrite E in H. fold unique_words in H. lia. }
    rewrite int_truediv_ok by lia. cbn [bind num_mul as_float].
    change (SFmul prec emax (SFmul prec emax _ (float_of_int 100)) float_1_5)
      with (scaled_percent_of (Z.of_nat (size unique_words)) (count_words text)).
    destruct (py_int_below 200 (scaled_percent_of (Z.of_nat (size unique_words)) (count_words text)))
      as (z & Hz & Ht & Hb); [lia | apply scaled_percent_of_below; lia |].
    exists z. rewrite Hz. cbn [bind]. repeat split; try assumption; lia.
Qed.

(** C5: with at least one word the uniqueness score is
    [min(100, int(u / t * 100 * 1.5))] in binary64, [u] the number of
    distinct lowercased words and [t] the number of words; with no word
    it is 0. *)
Theorem C5_uniqueness (self : EnhancedAnalyzer) (text : str) (uniq : list str) :
  NoDup uniq ->
  (forall w, w ∈ uniq <-> word_of w (lower text)) ->
  (count_words text = 0 -> _calculate_uniqueness self text = Ok 0) /\
  (0 < count_words text ->
   exists z,
     _calculate_uniqueness self text = Ok (Z.min 100 z) /\
     Ztrunc (scaled_percent_of (len uniq) (count_words text)) = Some z).
Proof.
  intros Hnd Hu.
  destruct (uniqueness_cases self text) as [H0 H1]. cbv zeta in H1.
  split; [exact H0|]. intros Hpos.
  destruct (H1 Hpos) as (z & Hz & Ht & _).
  exists z. split; [exact Hz|].
  unfold len. rewrite <- (size_enum (list_to_set (split (lower text))) uniq Hnd); [exact Ht|].
  intros w. rewrite Hu. symmetry. apply words_lower_spec.
Qed.

Lemma C5_uniqueness_witness :
  (count_words (lit "a B a") = 0 ->
   _calculate_uniqueness {| gemini_analyzer := fun _ _ => Ok ∅ |} (lit "a B a") = Ok 0) /\
  (0 < count_words (lit "a B a") ->
   exists z,
     _calculate_uniqueness {| gemini_analyzer := fun _ _ => Ok ∅ |} (lit "a B a") = Ok (Z.min 100 z) /\
     Ztrunc (scaled_percent_of (len [lit "a"; lit "b"]) (count_words (lit "a B a"))) = Some z).
Proof.
  apply (C5_uniqueness _ (lit "a B a") [lit "a"; lit "b"]).
  - nodup_literals.
  - words_of_literals.
Defined.

(** ** _calculate_readability *)

Lemma readability_unfold (self : EnhancedAnalyzer) (text : str) :
  _calculate_readability self text =
  py_int (py_max (PyInt 0) (py_min (PyInt 100)
    (PyFloat (readability_value (count_words text) (Z.max 1 (count_fragments "." text)))))).
Proof.
  unfold _calculate_readability. rewrite len_split, len_split_on.
  assert (H : 0 < count_fragments "." text) by (unfold count_fragments, len; lia).
  rewrite int_truediv_ok by lia. rewrite (Z.max_comm 1). reflexivity.
Qed.

(** C3: the readability score is the binary64 value of
    [100 - (w / s - 15) * 2], clamped to [0, 100] and truncated, with
    [w] the number of words and [s] the larger of 1 and the number of
    fragments between full stops. *)
Theorem C3_readability (self : EnhancedAnalyzer) (text : str) :
  exists z,
    _calculate_readability self text = Ok z /\
    clamp_percent
      (readability_value (count_words text) (Z.max 1 (count_fragments "." text))) = Some z.
Proof.
  rewrite readability_unfold.
  destruct (clamp_agrees (readability_value (count_words text) (Z.max 1 (count_fragments "." text))))
    as (z & Hz & Hc & _).
  - apply readability_value_canonical.
  - apply readability_value_not_nan; unfold count_words; lia.
  - exists z. split; assumption.
Qed.

Lemma readability_range (self : EnhancedAnalyzer) (text : str) :
  exists z, _calculate_readability self text = Ok z /\ 0 <= z <= 100.
Proof.
  rewrite readability_unfold.
  destruct (clamp_agrees (readability_value (count_words text) (Z.max 1 (count_fragments "." text))))
    as (z & Hz & _ & Hb).
  - apply readability_value_canonical.
  - apply readability_value_not_nan; unfold count_words; lia.
  - exists z. split; assumption.
Qed.

(** ** _analyze_sentiment *)

Lemma sum_of_ones {A : Type} (l : list A) :
  fold_left Z.add (map (fun _ => 1) l) 0 = len l.
Proof.
  unfold len.
  assert (H : forall acc, fold_left Z.add (map (fun _ : A => 1) l) acc = acc + Z.of_nat (length l)).
  { induction l as [|x l IH]; intros acc; cbn [map fold_left length].
    - lia.
    - rewrite IH. lia. }
  rewrite H. lia.
Qed.

Lemma count_present_enum (words : list str) (text : str) (found : list str) :
  NoDup words -> NoDup found ->
  (forall w, w ∈ found <-> w ∈ words /\ Substring w (lower text)) ->
  count_present words text = len found.
Proof.
  intros Hw Hf H. unfold count_present. rewrite sum_of_ones. unfold len. f_equal.
  apply Permutation_length, NoDup_Permutation.
  - apply NoDup_ListNoDup, List.NoDup_filter, NoDup_ListNoDup, Hw.
  - exact Hf.
  - intros w. rewrite H, list_elem_of_In, filter_In, <- list_elem_of_In, contains_spec. reflexivity.
Qed.

Lemma NoDup_positive_words : NoDup positive_words.
Proof. apply NoDup_ListNoDup. repeat constructor; cbn; intuition discriminate. Qed.

Lemma NoDup_weak_words : NoDup weak_words.
Proof. apply NoDup_ListNoDup. repeat constructor; cbn; intuition discriminate. Qed.

(** C4: with [p] the number of positive words and [n] the number of weak
    phrases occurring in the lowercased text, the tone score is
    [min(100, (p - n) * 10 + 70)] and the tone is 'Strong' exactly when
    [p > n], 'Needs Improvement' otherwise. *)
Theorem C4_sentiment (self : EnhancedAnalyzer) (text : str) (pos weak : list str) :
  NoDup pos ->
  (forall w, w ∈ pos <-> w ∈ positive_words /\ Substring w (lower text)) ->
  NoDup weak ->
  (forall w, w ∈ weak <-> w ∈ weak_words /\ Substring w (lower text)) ->
  tone_score (_analyze_sentiment self text) = Z.min 100 ((len pos - len weak) * 10 + 70) /\
  (overall_tone (_analyze_sentiment self text) = lit "Strong" <-> len pos > len weak) /\
  (overall_tone (_analyze_sentiment self text) = lit "Needs Improvement" <-> ~ len pos > len weak).
Proof.
  intros Hnp Hp Hnw Hw. unfold _analyze_sentiment. cbn [tone_score overall_tone].
  rewrite (count_present_enum positive_words text pos NoDup_positive_words Hnp Hp).
  rewrite (count_present_enum weak_words text weak NoDup_weak_words Hnw Hw).
  split; [reflexivity|].
  destruct (Z.ltb_spec (len weak) (len pos)) as [Hlt|Hge].
  - split; split; intros H; try lia; try reflexivity; discriminate H.
  - split; split; intros H; try lia; try reflexivity; discriminate H.
Qed.

Ltac found_literals :=
  let w := fresh "w" in
  let H := fresh "H" in
  let H1 := fresh "H" in
  let H2 := fresh "H" in
  intros w; rewrite <- contains_spec; split;
  [ intros H; apply list_elem_of_In in H; cbn in H;
    repeat (destruct H as [<- | H];
            [split; [apply list_elem_of_In; cbn; auto 10 | vm_compute; reflexivity] | ]);
    destruct H
  | intros [H1 H2]; apply list_elem_of_In in H1; cbn in H1; apply list_elem_of_In;
    repeat (destruct H1 as [<- | H1];
            [first [vm_compute in H2; discriminate H2 | cbn; auto 10] | ]);
    destruct H1 ].

Lemma C4_sentiment_witness :
  let text := lit "Led a team and managed budgets; worked on reports" in
  let r := _analyze_sentiment {| gemini_analyzer := fun _ _ => Ok ∅ |} text in
  tone_score r = Z.min 100 ((len [lit "led"; lit "managed"] - len [lit "worked on"]) * 10 + 70) /\
  (overall_tone r = lit "Strong" <-> len [lit "led"; lit "managed"] > len [lit "worked on"]) /\
  (overall_tone r = lit "Needs Improvement" <-> ~ len [lit "led"; lit "managed"] > len [lit "worked on"]).
Proof.
  apply (C4_sentiment _ (lit "Led a team and managed budgets; worked on reports")
           [lit "led"; lit "managed"] [lit "worked on"]).
  - nodup_literals.
  - found_literals.
  - nodup_literals.
  - found_literals.
Defined.

(** ** _get_industry_insights *)

Lemma filter_r_ok {A : Type} (cond : A -> result bool) (f : A -> bool) (l : list A) :
  (forall x, x ∈ l -> cond x = Ok (f x)) -> filter_r cond l = Ok (List.filter f l).
Proof.
  induction l as [|x l IH]; intros H; cbn [filter_r List.filter].
  - reflexivity.
  - rewrite (H x) by apply list_elem_of_here. cbn [bind].
    rewrite IH by (intros y Hy; apply H, list_elem_of_further, Hy). reflexivity.
Qed.

Lemma sublist_List_filter {A : Type} (f : A -> bool) (l : list A) :
  List.filter f l `sublist_of` l.
Proof.
  induction l as [|x l IH]; cbn [List.filter].
  - constructor.
  - destruct (f x); [apply sublist_skip | apply sublist_cons]; exact IH.
Qed.

Lemma List_filter_split {A : Type} (f : A -> bool) (l : list A) :
  List.filter f l ++ List.filter (fun x => negb (f x)) l ≡ₚ l.
Proof.
  induction l as [|x l IH]; cbn [List.filter].
  - reflexivity.
  - destruct (f x); cbn [negb app].
    + constructor. exact IH.
    + rewrite <- Permutation_middle. constructor. exact IH.
Qed.

Lemma keyword_present_b_spec kw analysis :
  keyword_present_b kw analysis = true <-> keyword_present kw analysis.
Proof.
  unfold keyword_present_b, keyword_present.
  destruct (analysis !! lit "matched_keywords") as [[| | s | l]|].
  - split; [discriminate | contradiction].
  - split; [discriminate | contradiction].
  - apply contains_spec.
  - apply bool_decide_eq_true.
  - split; [discriminate | contradiction].
Qed.

Lemma py_in_usable kw analysis :
  keywords_usable analysis ->
  py_in kw (dict_get analysis "matched_keywords" (VList [])) = Ok (keyword_present_b kw analysis).
Proof.
  unfold keywords_usable, dict_get, keyword_present_b.
  destruct (analysis !! lit "matched_keywords") as [[| | s | l]|]; cbn; try contradiction; reflexivity.
Qed.

Lemma industry_keywords_known ind :
  ind ∈ known_industries ->
  exists kw kws, industry_keywords !! ind = Some (kw :: kws).
Proof.
  intros H. apply list_elem_of_In in H. cbn in H.
  repeat (destruct H as [<- | H]; [vm_compute; eexists _, _; reflexivity | ]).
  destruct H.
Qed.

Lemma industry_keywords_unknown ind :
  ind ∉ known_industries -> industry_keywords !! ind = None.
Proof.
  intros H. unfold industry_keywords. apply not_elem_of_list_to_map_1. exact H.
Qed.

Lemma industry_insights_eval (self : EnhancedAnalyzer) (ind : str) (analysis : gmap str pyval) :
  (ind ∈ known_industries -> keywords_usable analysis) ->
  let kws := default [] (industry_keywords !! ind) in
  let matched := List.filter (fun kw => keyword_present_b kw analysis) kws in
  let missing := List.filter (fun kw => negb (keyword_present_b kw analysis)) kws in
  _get_industry_insights self ind analysis =
  Ok {| industry := ind;
        matched_industry_keywords := matched;
        missing_industry_keywords := missing;
        industry_score :=
          match kws with
          | [] => PyInt 0
          | _ :: _ => PyFloat (percent_of (len matched) (len kws))
          end;
        industry_recommendations := _get_industry_recommendations self ind missing |}.
Proof.
  intros Hk kws matched missing.
  assert (Hu : forall kw, kw ∈ kws -> keywords_usable analysis).
  { intros kw Hkw. apply Hk. destruct (decide (ind ∈ known_industries)) as [Hin|Hout]; [exact Hin|].
    subst kws. rewrite (industry_keywords_unknown ind Hout) in Hkw.
    cbn [default from_option id] in Hkw. apply elem_of_nil in Hkw. destruct Hkw. }
  unfold _get_industry_insights. fold kws.
  rewrite (filter_r_ok _ (fun kw => keyword_present_b kw analysis))
    by (intros kw Hkw; apply py_in_usable, (Hu kw Hkw)).
  cbn [bind].
  rewrite (filter_r_ok _ (fun kw => negb (keyword_present_b kw analysis)))
    by (intros kw Hkw; rewrite py_in_usable by exact (Hu kw Hkw); reflexivity).
  cbn [bind]. fold matched. fold missing.
  destruct kws as [|k kws'] eqn:E.
  - reflexivity.
  - rewrite int_truediv_ok by (unfold len; cbn [length]; lia). reflexivity.
Qed.

Lemma industry_insights_ok (self : EnhancedAnalyzer) (ind : str) (analysis : gmap str pyval) :
  keywords_usable analysis ->
  let kws := default [] (industry_keywords !! ind) in
  let matched := List.filter (fun kw => keyword_present_b kw analysis) kws in
  let missing := List.filter (fun kw => negb (keyword_present_b kw analysis)) kws in
  _get_industry_insights self ind analysis =
  Ok {| industry := ind;
        matched_industry_keywords := matched;
        missing_industry_keywords := missing;
        industry_score :=
          match kws with
          | [] => PyInt 0
          | _ :: _ => PyFloat (percent_of (len matched) (len kws))
          end;
        industry_recommendations := _get_industry_recommendations self ind missing |}.
Proof. intros Hu. apply industry_insights_eval. intros _. exact Hu. Qed.

(** C6, amended: for every industry and every analysis whose entry
    [matched_keywords] is absent, a list or a string when the industry is
    one of the five known ones (for any other industry, every analysis),
    the industry's keyword list is split, in order, into the keywords
    present in [matched_keywords] and the rest; the score is the binary64
    value of [matched / total * 100] for the five industries, and an
    unknown industry gives two empty lists and the score 0. *)
Theorem C6_industry_insights (self : EnhancedAnalyzer) (ind : str) (analysis : gmap str pyval) :
  (ind ∈ known_industries -> keywords_usable analysis) ->
  exists r,
    _get_industry_insights self ind analysis = Ok r /\
    let kws := default [] (industry_keywords !! ind) in
    (forall kw, kw ∈ matched_industry_keywords r <-> kw ∈ kws /\ keyword_present kw analysis) /\
    (forall kw, kw ∈ missing_industry_keywords r <-> kw ∈ kws /\ ~ keyword_present kw analysis) /\
    (forall kw, ~ (kw ∈ matched_industry_keywords r /\ kw ∈ missing_industry_keywords r)) /\
    matched_industry_keywords r `sublist_of` kws /\
    missing_industry_keywords r `sublist_of` kws /\
    matched_industry_keywords r ++ missing_industry_keywords r ≡ₚ kws /\
    (ind ∈ known_industries ->
     industry_score r = PyFloat (percent_of (len (matched_industry_keywords r)) (len kws))) /\
    (ind ∉ known_industries ->
     matched_industry_keywords r = [] /\ missing_industry_keywords r = [] /\
     industry_score r = PyInt 0).
Proof.
  intros Hu. eexists. split; [apply industry_insights_eval, Hu|].
  cbv zeta. cbn [matched_industry_keywords missing_industry_keywords industry_score].
  set (kws := default [] (industry_keywords !! ind)).
  assert (Hm : forall kw, kw ∈ List.filter (fun kw => keyword_present_b kw analysis) kws <->
                          kw ∈ kws /\ keyword_present kw analysis).
  { intros kw. rewrite list_elem_of_In, filter_In, <- list_elem_of_In, keyword_present_b_spec. reflexivity. }
  assert (Hn : forall kw, kw ∈ List.filter (fun kw => negb (keyword_present_b kw analysis)) kws <->
                          kw ∈ kws /\ ~ keyword_present kw analysis).
  { intros kw. rewrite list_elem_of_In, filter_In, <- list_elem_of_In, negb_true_iff,
      <- not_true_iff_false, keyword_present_b_spec. reflexivity. }
  split; [exact Hm|]. split; [exact Hn|]. split.
  { intros kw [H1 H2]. apply Hm in H1. apply Hn in H2. tauto. }
  split; [apply sublist_List_filter|]. split; [apply sublist_List_filter|].
  split; [apply List_filter_split|]. split.
  - intros Hk. destruct (industry_keywords_known ind Hk) as (kw & kws' & E).
    subst kws. rewrite E. reflexivity.
  - intros Hk. subst kws. rewrite (industry_keywords_unknown ind Hk). repeat split; reflexivity.
Qed.

Lemma C6_industry_insights_witness :
  let analysis : gmap str pyval := {[ lit "matched_keywords" := VList [lit "api"; lit "sql"] ]} in
  keywords_usable analysis /\
  exists r,
    _get_industry_insights {| gemini_analyzer := fun _ _ => Ok ∅ |} (lit "Technology") analysis = Ok r /\
    matched_industry_keywords r ++ missing_industry_keywords r
      ≡ₚ default [] (industry_keywords !! lit "Technology").
Proof.
  cbv zeta.
  assert (Hu : keywords_usable ({[ lit "matched_keywords" := VList [lit "api"; lit "sql"] ]} : gmap str pyval)).
  { vm_compute. exact I. }
  split; [exact Hu|].
  destruct (C6_industry_insights {| gemini_analyzer := fun _ _ => Ok ∅ |} (lit "Technology") _ (fun _ => Hu))
    as (r & Hr & _ & _ & _ & _ & _ & Hp & _).
  exists r. split; [exact Hr | exact Hp].
Defined.

(** C6 as stated, for every analysis dictionary, fails: with the entry
    [matched_keywords] set to None and the industry 'Finance', the test
    [kw in None] raises TypeError and no insights are returned. *)
Lemma C6_industry_insights_counterexample :
  let analysis : gmap str pyval := {[ lit "matched_keywords" := VNone ]} in
  _get_industry_insights {| gemini_analyzer := fun _ _ => Ok ∅ |} (lit "Finance") analysis
    = Raise TypeError /\
  ~ (exists r, _get_industry_insights {| gemini_analyzer := fun _ _ => Ok ∅ |}
                 (lit "Finance") analysis = Ok r).
Proof.
  cbv zeta.
  assert (E : _get_industry_insights {| gemini_analyzer := fun _ _ => Ok ∅ |} (lit "Finance")
                ({[ lit "matched_keywords" := VNone ]} : gmap str pyval) = Raise TypeError).
  { vm_compute. reflexivity. }
  split; [exact E|]. intros (r & Hr). rewrite E in Hr. discriminate Hr.
Qed.

(** ** calculate_quick_ats_score *)

Lemma re_is_unbound : load_global enhanced_app_integration_globals "re" = Raise (NameError "re").
Proof. vm_compute. reflexivity. Qed.

Lemma quick_ats_score_raises (self : SmartATSProElite) (resume_text : str) :
  calculate_quick_ats_score self resume_text = Raise (NameError "re").
Proof.
  unfold calculate_quick_ats_score, calculate_quick_ats_score_in.
  rewrite re_is_unbound. reflexivity.
Qed.

(** C1: the method never reaches its deductions: the module does not
    import [re], and the first [re.search] raises NameError whatever the
    resume text is. *)
Theorem C1_quick_ats_score_name_error (self : SmartATSProElite) (resume_text : str) :
  calculate_quick_ats_score self resume_text = Raise (NameError "re").
Proof. apply quick_ats_score_raises. Qed.

(** C9: no score, and so none of at least 45, is ever returned. *)
Theorem C9_quick_ats_score_returns_nothing (self : SmartATSProElite) (resume_text : str) :
  ~ exists score, calculate_quick_ats_score self resume_text = Ok score /\ 45 <= score.
Proof.
  intros (score & H & _). rewrite quick_ats_score_raises in H. discriminate H.
Qed.

(** C7: the keyword density and the readability score are integers of
    [0, 100] on every input, while the quick ATS score is not: on the
    empty resume, as on any other, the call raises NameError. *)
Theorem C7_scores_in_range :
  (forall (self : SmartATSProElite) (resume_text job_description : str),
     exists z, calculate_keyword_density self resume_text job_description = Ok z /\ 0 <= z <= 100) /\
  (forall (self : EnhancedAnalyzer) (text : str),
     exists z, _calculate_readability self text = Ok z /\ 0 <= z <= 100) /\
  (forall self : SmartATSProElite,
     ~ exists z, calculate_quick_ats_score self [] = Ok z /\ 0 <= z <= 100).
Proof.
  split; [|split].
  - intros self r j.
    destruct (keyword_density_cases self r j) as [H0 H1]. cbv zeta in H0, H1.
    destruct (decide ((list_to_set (split (lower j)) : gset str) = ∅)) as [E|NE].
    + exists 0. split; [apply H0, E | lia].
    + destruct (H1 NE) as (z & Hz & _ & Hb). exists z. split; assumption.
  - apply readability_range.
  - intros self (z & H & _). rewrite quick_ats_score_raises in H. discriminate H.
Qed.


(** * Further properties of the heuristics *)

(** ** Keyword density as a function of the two word sets *)

Lemma words_lower_ext (t1 t2 : str) :
  (forall w, word_of w (lower t1) <-> word_of w (lower t2)) ->
  (list_to_set (split (lower t1)) : gset str) = list_to_set (split (lower t2)).
Proof.
  intros H. apply set_eq. intros w. rewrite !words_lower_spec. apply H.
Qed.

(** The density only sees which lowercased words occur: texts with the
    same words, in any order, case and multiplicity, score alike. *)
Theorem keyword_density_bag_of_words (self : SmartATSProElite) (r1 r2 j1 j2 : str) :
  (forall w, word_of w (lower r1) <-> word_of w (lower r2)) ->
  (forall w, word_of w (lower j1) <-> word_of w (lower j2)) ->
  calculate_keyword_density self r1 j1 = calculate_keyword_density self r2 j2.
Proof.
  intros Hr Hj. unfold calculate_keyword_density.
  rewrite (words_lower_ext r1 r2 Hr), (words_lower_ext j1 j2 Hj). reflexivity.
Qed.

Lemma keyword_density_bag_of_words_witness :
  calculate_keyword_density {| session := ∅; current_tab := [] |} (lit "SQL sql Go") (lit "go  rust") =
  calculate_keyword_density {| session := ∅; current_tab := [] |} (lit "go sql") (lit "Rust GO rust").
Proof.
  apply keyword_density_bag_of_words.
  - words_of_literals.
  - words_of_literals.
Defined.

Lemma Ztrunc_float_100 : Ztrunc float_100 = Some 100.
Proof. vm_compute. reflexivity. Qed.

(** A resume that contains every word of the job description scores 100. *)
Theorem keyword_density_full_cover (self : SmartATSProElite) (resume_text job_description : str) :
  (exists w, word_of w job_description) ->
  (forall w, word_of w (lower job_description) -> word_of w (lower resume_text)) ->
  calculate_keyword_density self resume_text job_description = Ok 100.
Proof.
  intros [w0 Hw0] Hsub.
  destruct (keyword_density_cases self resume_text job_description) as [_ H1]. cbv zeta in H1.
  set (J := list_to_set (split (lower job_description)) : gset str) in *.
  set (R := list_to_set (split (lower resume_text)) : gset str) in *.
  assert (HJ : J <> ∅).
  { intros E. apply word_of_lower, words_lower_spec in Hw0. fold J in Hw0.
    rewrite E in Hw0. exact (not_elem_of_empty (lower w0) Hw0). }
  assert (HRJ : R ∩ J = J).
  { apply set_eq. intros w. rewrite elem_of_intersection. unfold R, J.
    rewrite !words_lower_spec. split; [tauto|]. intros H. split; [apply Hsub, H | exact H]. }
  destruct (H1 HJ) as (z & Hz & Ht & _).
  rewrite HRJ, percent_of_self, Ztrunc_float_100 in Ht.
  - rewrite Hz. injection Ht as <-. reflexivity.
  - assert (size J <> 0%nat) by (rewrite size_zero_empty; exact HJ). lia.
Qed.

Lemma keyword_density_full_cover_witness :
  calculate_keyword_density {| session := ∅; current_tab := [] |}
    (lit "Senior Go and SQL developer") (lit "go sql") = Ok 100.
Proof.
  apply keyword_density_full_cover.
  - exists (lit "go"). apply split_spec. vm_compute. apply list_elem_of_here.
  - intros w. rewrite <- !split_spec.
    repeat match goal with
           | |- context [split ?t] =>
               let v := eval vm_compute in (split t) in change (split t) with v
           end.
    rewrite ?elem_of_cons, ?elem_of_nil. intuition (subst; auto 10).
Defined.

Lemma percent_of_zero j : 0 < j -> percent_of 0 j = S754_zero false.
Proof.
  intros Hj. unfold percent_of. rewrite float_of_int_100.
  destruct j as [|p|p]; try lia. reflexivity.
Qed.

(** Without a common word the density is 0. *)
Theorem keyword_density_no_overlap (self : SmartATSProElite) (resume_text job_description : str) :
  (forall w, word_of w (lower resume_text) -> ~ word_of w (lower job_description)) ->
  calculate_keyword_density self resume_text job_description = Ok 0.
Proof.
  intros Hdis.
  destruct (keyword_density_cases self resume_text job_description) as [H0 H1]. cbv zeta in H0, H1.
  set (J := list_to_set (split (lower job_description)) : gset str) in *.
  set (R := list_to_set (split (lower resume_text)) : gset str) in *.
  destruct (decide (J = ∅)) as [E|NE]; [apply H0, E|].
  assert (HRJ : R ∩ J = ∅).
  { apply set_eq. intros w. rewrite elem_of_intersection. unfold R, J.
    rewrite !words_lower_spec. split; [intros [Hr Hj]; destruct (Hdis w Hr Hj) | intros H; destruct (not_elem_of_empty w H)]. }
  destruct (H1 NE) as (z & Hz & Ht & _).
  rewrite HRJ, size_empty in Ht. rewrite Hz. f_equal.
  assert (Hs : size J <> 0%nat) by (rewrite size_zero_empty; exact NE).
  change (Z.of_nat 0) with 0 in Ht. rewrite percent_of_zero in Ht by lia.
  cbn in Ht. congruence.
Qed.

Lemma keyword_density_no_overlap_witness :
  calculate_keyword_density {| session := ∅; current_tab := [] |} (lit "java") (lit "go sql") = Ok 0.
Proof.
  apply keyword_density_no_overlap.
  intros w. rewrite <- !split_spec.
  repeat match goal with
         | |- context [split ?t] =>
             let v := eval vm_compute in (split t) in change (split t) with v
         end.
  rewrite ?elem_of_cons, ?elem_of_nil. intuition (subst; discriminate).
Defined.

(** ** Uniqueness *)

Lemma uniqueness_in_range (self : EnhancedAnalyzer) (text : str) :
  exists z, _calculate_uniqueness self text = Ok z /\ 0 <= z <= 100.
Proof.
  destruct (uniqueness_cases self text) as [H0 H1]. cbv zeta in H1.
  destruct (Z.eq_dec (count_words text) 0) as [E|NE].
  - exists 0. split; [apply H0, E | lia].
  - destruct H1 as (z & Hz & _ & Hb); [unfold count_words in *; lia|].
    exists (Z.min 100 z). split; [exact Hz | lia].
Qed.

(** The uniqueness score is always returned, and lies in [0, 100]. *)
Theorem uniqueness_range (self : EnhancedAnalyzer) (text : str) :
  exists z, _calculate_uniqueness self text = Ok z /\ 0 <= z <= 100.
Proof. apply uniqueness_in_range. Qed.

Lemma scaled_percent_of_self n : 0 < n -> Ztrunc (scaled_percent_of n n) = Some 150.
Proof.
  intros Hn. unfold scaled_percent_of. rewrite percent_of_self by exact Hn.
  vm_compute. reflexivity.
Qed.

(** A text in which no word occurs twice, whatever the case, scores 100. *)
Theorem uniqueness_all_distinct (self : EnhancedAnalyzer) (text : str) :
  split text <> [] -> NoDup (split (lower text)) ->
  _calculate_uniqueness self text = Ok 100.
Proof.
  intros Hne Hnd.
  destruct (uniqueness_cases self text) as [_ H1]. cbv zeta in H1.
  assert (Hlen : Z.of_nat (length (split text)) = count_words text) by apply len_split.
  assert (Hpos : 0 < count_words text).
  { rewrite <- Hlen. destruct (split text); [congruence | cbn [length]; lia]. }
  destruct (H1 Hpos) as (z & Hz & Ht & _).
  rewrite size_list_to_set in Ht by exact Hnd.
  rewrite split_lower, length_map, Hlen, scaled_percent_of_self in Ht by exact Hpos.
  injection Ht as <-. exact Hz.
Qed.

Lemma uniqueness_all_distinct_witness :
  _calculate_uniqueness {| gemini_analyzer := fun _ _ => Ok ∅ |} (lit "Built fast parsers") = Ok 100.
Proof.
  apply uniqueness_all_distinct.
  - vm_compute. discriminate.
  - apply NoDup_ListNoDup. vm_compute. repeat constructor; cbn; intuition discriminate.
Defined.

(** A repeated word can cost the full score even at a ratio of two in
    three, where exact arithmetic would give 100: the product is rounded. *)
Lemma uniqueness_two_of_three (self : EnhancedAnalyzer) :
  _calculate_uniqueness self (lit "a b a") = Ok 99.
Proof. vm_compute. reflexivity. Qed.

(** The score ignores the case of the text. *)
Theorem uniqueness_case_insensitive (self : EnhancedAnalyzer) (text : str) :
  _calculate_uniqueness self (lower text) = _calculate_uniqueness self text.
Proof.
  unfold _calculate_uniqueness. rewrite lower_idem.
  replace (len (split (lower text))) with (len (split text)); [reflexivity|].
  unfold len. rewrite split_lower, length_map. reflexivity.
Qed.

(** ** Sentiment *)

Lemma count_present_bounds (words : list str) (text : str) :
  0 <= count_present words text <= len words.
Proof.
  unfold count_present. rewrite sum_of_ones. unfold len.
  pose proof (List.filter_length_le (fun word => contains word (lower text)) words). lia.
Qed.

Lemma sentiment_in_bounds (self : EnhancedAnalyzer) (text : str) :
  30 <= tone_score (_analyze_sentiment self text) <= 100 /\
  0 <= positive_indicators (_analyze_sentiment self text) <= 7 /\
  0 <= weak_indicators (_analyze_sentiment self text) <= 4.
Proof.
  unfold _analyze_sentiment. cbn [tone_score positive_indicators weak_indicators].
  pose proof (count_present_bounds positive_words text) as Hp.
  pose proof (count_present_bounds weak_words text) as Hw.
  change (len positive_words) with 7 in Hp. change (len weak_words) with 4 in Hw. lia.
Qed.

(** Whatever the text, the tone score lies between 30 and 100, with at
    most seven positive and four weak indicators. *)
Theorem sentiment_bounds (self : EnhancedAnalyzer) (text : str) :
  30 <= tone_score (_analyze_sentiment self text) <= 100 /\
  0 <= positive_indicators (_analyze_sentiment self text) <= 7 /\
  0 <= weak_indicators (_analyze_sentiment self text) <= 4.
Proof. apply sentiment_in_bounds. Qed.

(** The tone is 'Strong' exactly when the tone score exceeds 70. *)
Theorem sentiment_tone_matches_score (self : EnhancedAnalyzer) (text : str) :
  overall_tone (_analyze_sentiment self text) = lit "Strong" <->
  70 < tone_score (_analyze_sentiment self text).
Proof.
  unfold _analyze_sentiment. cbn [tone_score overall_tone].
  pose proof (count_present_bounds positive_words text) as Hp.
  pose proof (count_present_bounds weak_words text) as Hw.
  destruct (Z.ltb_spec (count_present weak_words text) (count_present positive_words text)).
  - split; [intros _; lia | reflexivity].
  - split; [discriminate | lia].
Qed.

(** Sentiment, impact words and weak phrases ignore the case of the text. *)
Theorem text_scans_case_insensitive (self : EnhancedAnalyzer) (text : str) :
  _analyze_sentiment self (lower text) = _analyze_sentiment self text /\
  _extract_impact_words self (lower text) = _extract_impact_words self text /\
  _identify_weak_phrases self (lower text) = _identify_weak_phrases self text.
Proof.
  unfold _analyze_sentiment, count_present, _extract_impact_words, _identify_weak_phrases.
  rewrite lower_idem. repeat split; reflexivity.
Qed.

(** ** Word lists *)

Lemma List_filter_incl_length {A : Type} (f : A -> bool) (l k : list A) :
  l `sublist_of` k -> (length (List.filter f l) <= length (List.filter f k))%nat.
Proof.
  induction 1 as [|x l k H IH|x l k H IH]; cbn [List.filter].
  - lia.
  - destruct (f x); cbn [length]; lia.
  - destruct (f x); cbn [length]; lia.
Qed.

(** Every weak phrase the sentiment counts is also reported by
    [_identify_weak_phrases]; with none reported, the tone score is at
    least 70. *)
Theorem weak_phrases_cover_sentiment (self : EnhancedAnalyzer) (text : str) :
  weak_indicators (_analyze_sentiment self text) <= len (_identify_weak_phrases self text) /\
  (_identify_weak_phrases self text = [] -> 70 <= tone_score (_analyze_sentiment self text)).
Proof.
  assert (H : weak_indicators (_analyze_sentiment self text) <= len (_identify_weak_phrases self text)).
  { unfold _analyze_sentiment, _identify_weak_phrases, count_present. cbn [weak_indicators].
    rewrite sum_of_ones. unfold len. apply inj_le, List_filter_incl_length.
    unfold weak_words, weak_phrases. cbn [map].
    repeat apply sublist_skip. repeat apply sublist_cons. constructor. }
  split; [exact H|]. intros E. rewrite E in H. change (len []) with 0 in H.
  pose proof (sentiment_in_bounds self text) as (_ & Hp & Hw).
  unfold _analyze_sentiment in *. cbn [tone_score positive_indicators weak_indicators] in *. lia.
Qed.

(** [_extract_impact_words] reports, in the order of its fixed list and
    without repetition, exactly the impact words that occur in the
    lowercased text. *)
Theorem impact_words_found (self : EnhancedAnalyzer) (text : str) :
  _extract_impact_words self text `sublist_of` impact_words /\
  NoDup (_extract_impact_words self text) /\
  (forall w, w ∈ _extract_impact_words self text <->
             w ∈ impact_words /\ Substring w (lower text)).
Proof.
  unfold _extract_impact_words. split; [apply sublist_List_filter|]. split.
  - apply NoDup_ListNoDup, List.NoDup_filter. unfold impact_words.
    repeat constructor; cbn; intuition discriminate.
  - intros w. rewrite list_elem_of_In, filter_In, <- list_elem_of_In, contains_spec. reflexivity.
Qed.

(** 'led' is searched as a piece of text, not as a word: any text with
    these three letters in a row, as in 'handled', counts one positive
    indicator and reports the impact word. *)
Theorem led_matches_inside_words (self : EnhancedAnalyzer) (pre post : str) :
  1 <= positive_indicators (_analyze_sentiment self (pre ++ lit "led" ++ post)) /\
  lit "led" ∈ _extract_impact_words self (pre ++ lit "led" ++ post).
Proof.
  assert (Hc : contains (lit "led") (lower (pre ++ lit "led" ++ post)) = true).
  { apply contains_spec. exists (lower pre), (lower post). rewrite !lower_app. reflexivity. }
  split.
  - unfold _analyze_sentiment, count_present. cbn [positive_indicators].
    rewrite sum_of_ones. unfold len.
    assert (Hin : In (lit "led") (List.filter (fun word => contains word (lower (pre ++ lit "led" ++ post))) positive_words)).
    { apply filter_In. split; [cbn; auto 10 | exact Hc]. }
    destruct (List.filter _ positive_words); [destruct Hin | cbn [length]; lia].
  - unfold _extract_impact_words. apply list_elem_of_In, filter_In. split; [cbn; auto 10 | exact Hc].
Qed.

(** ** Industry insights: errors and score *)

(** An unknown industry never raises, whatever [matched_keywords] holds;
    a known one raises TypeError when [matched_keywords] is None or a
    number. *)
Theorem industry_insights_errors (self : EnhancedAnalyzer) (ind : str) (analysis : gmap str pyval) :
  (ind ∉ known_industries ->
   exists r, _get_industry_insights self ind analysis = Ok r /\
             matched_industry_keywords r = [] /\ missing_industry_keywords r = [] /\
             industry_score r = PyInt 0) /\
  (ind ∈ known_industries ->
   analysis !! lit "matched_keywords" = Some VNone \/
   (exists x, analysis !! lit "matched_keywords" = Some (VNum x)) ->
   _get_industry_insights self ind analysis = Raise TypeError).
Proof.
  split.
  - intros Hk. unfold _get_industry_insights. rewrite (industry_keywords_unknown ind Hk).
    cbn. eexists. repeat split; reflexivity.
  - intros Hk Hv. destruct (industry_keywords_known ind Hk) as (kw & kws & E).
    unfold _get_industry_insights. rewrite E. cbn [default from_option id filter_r].
    unfold dict_get. destruct Hv as [Hv | (x & Hv)]; rewrite Hv; reflexivity.
Qed.

Lemma industry_insights_errors_witness :
  _get_industry_insights {| gemini_analyzer := fun _ _ => Ok ∅ |} (lit "Technology")
    {[ lit "matched_keywords" := VNum (PyInt 3) ]} = Raise TypeError.
Proof.
  apply industry_insights_errors.
  - apply list_elem_of_In. cbn. auto 10.
  - right. exists (PyInt 3). vm_compute. reflexivity.
Defined.

(** For a usable analysis the industry score is 0 or a double between 0
    and 100; it is exactly 100.0 when every keyword of a known industry is
    matched and 0.0 when none is. *)
Theorem industry_score_range (self : EnhancedAnalyzer) (ind : str) (analysis : gmap str pyval) :
  keywords_usable analysis ->
  exists r, _get_industry_insights self ind analysis = Ok r /\
    (industry_score r = PyInt 0 \/ exists f, industry_score r = PyFloat f /\ below 100 f) /\
    (ind ∈ known_industries -> missing_industry_keywords r = [] ->
     industry_score r = PyFloat float_100) /\
    (ind ∈ known_industries -> matched_industry_keywords r = [] ->
     industry_score r = PyFloat (S754_zero false)).
Proof.
  intros Hu. eexists. split; [apply industry_insights_ok, Hu|].
  cbv zeta. cbn [matched_industry_keywords missing_industry_keywords industry_score].
  set (kws := default [] (industry_keywords !! ind)).
  pose proof (List.filter_length_le (fun kw => keyword_present_b kw analysis) kws) as Hle.
  pose proof (Permutation_length (List_filter_split (fun kw => keyword_present_b kw analysis) kws)) as Hsum.
  rewrite length_app in Hsum.
  split; [|split].
  - destruct kws as [|k kws']; [left; reflexivity|]. right. eexists. split; [reflexivity|].
    apply percent_of_below; unfold len; cbn [length] in *; lia.
  - intros Hk Hmiss. destruct (industry_keywords_known ind Hk) as (kw & kws' & E).
    rewrite Hmiss in Hsum. subst kws. rewrite E in *. cbn [default from_option id] in *.
    f_equal. unfold len. cbn [length] in Hsum. rewrite Nat.add_0_r in Hsum. rewrite Hsum.
    apply percent_of_self. cbn [length]. lia.
  - intros Hk Hmatch. destruct (industry_keywords_known ind Hk) as (kw & kws' & E).
    rewrite Hmatch. subst kws. rewrite E. cbn [default from_option id].
    apply (f_equal PyFloat). apply percent_of_zero. unfold len. cbn [length]. lia.
Qed.

Lemma industry_score_range_witness :
  exists r,
    _get_industry_insights {| gemini_analyzer := fun _ _ => Ok ∅ |} (lit "Finance")
      {[ lit "matched_keywords" := VStr (lit "audit and regulatory compliance") ]} = Ok r.
Proof.
  destruct (industry_score_range {| gemini_analyzer := fun _ _ => Ok ∅ |} (lit "Finance")
              {[ lit "matched_keywords" := VStr (lit "audit and regulatory compliance") ]})
    as (r & Hr & _).
  - vm_compute. exact I.
  - exists r. exact Hr.
Defined.

(** ** Industry recommendations *)



(** ** Optimization roadmap *)

Lemma val_ne_str_high (analysis : gmap str pyval) :
  val_ne_str (dict_get analysis "ats_friendliness" VNone) (lit "High") = false <->
  analysis !! lit "ats_friendliness" = Some (VStr (lit "High")).
Proof.
  unfold dict_get, val_ne_str.
  destruct (analysis !! lit "ats_friendliness") as [[| | s | l]|]; cbn [default from_option id];
    try (split; [discriminate | intros H; discriminate H]).
  rewrite negb_false_iff, bool_decide_eq_true. split; [intros ->; reflexivity | intros [= ->]; reflexivity].
Qed.

(** With an integer match percentage [n] (0 when the key is absent) and a
    list of missing keywords, the roadmap has at most three steps: the
    critical one exactly when [n < 50], and then always first; the skills
    step exactly with more than three missing keywords; the ATS step unless
    [ats_friendliness] is 'High'.  It is empty exactly when none applies. *)
Theorem optimization_roadmap_steps (self : EnhancedAnalyzer) (analysis : gmap str pyval)
    (n : Z) (missing : list str) :
  dict_get analysis "match_percentage" (VNum (PyInt 0)) = VNum (PyInt n) ->
  dict_get analysis "missing_keywords" (VList []) = VList missing ->
  exists r,
    _create_optimization_roadmap self analysis = Ok r /\
    (length r <= 3)%nat /\
    (roadmap_keywords ∈ r <-> n < 50) /\
    (roadmap_skills ∈ r <-> 3 < len missing) /\
    (roadmap_ats ∈ r <-> analysis !! lit "ats_friendliness" <> Some (VStr (lit "High"))) /\
    (n < 50 -> head r = Some roadmap_keywords) /\
    (r = [] <-> 50 <= n /\ len missing <= 3 /\
                analysis !! lit "ats_friendliness" = Some (VStr (lit "High"))).
Proof.
  intros Hm Hk. unfold _create_optimization_roadmap. rewrite Hm, Hk.
  cbn [val_lt py_len bind num_lt app].
  pose proof (val_ne_str_high analysis) as Hats.
  assert (D1 : roadmap_keywords <> roadmap_skills) by discriminate.
  assert (D2 : roadmap_keywords <> roadmap_ats) by discriminate.
  assert (D3 : roadmap_skills <> roadmap_ats) by discriminate.
  eexists. split; [reflexivity|].
  set (high := analysis !! lit "ats_friendliness" = Some (VStr (lit "High"))) in *.
  assert (Hh : if val_ne_str (dict_get analysis "ats_friendliness" VNone) (lit "High")
               then ~ high else high).
  { destruct (val_ne_str _ _); [intros E; apply Hats in E; discriminate E | apply Hats; reflexivity]. }
  clear Hats.
  destruct (Z.ltb_spec n 50) as [Hn|Hn];
  destruct (Z.ltb_spec 3 (len missing)) as [Hl|Hl];
  destruct (val_ne_str (dict_get analysis "ats_friendliness" VNone) (lit "High"));
  cbn [app length head];
  rewrite ?elem_of_cons, ?elem_of_nil;
  intuition (try lia; try congruence; try discriminate).
Qed.

Lemma optimization_roadmap_steps_witness :
  exists r,
    _create_optimization_roadmap {| gemini_analyzer := fun _ _ => Ok ∅ |}
      {[ lit "missing_keywords" := VList [lit "sql"; lit "go"; lit "aws"; lit "ci"] ]} = Ok r /\
    head r = Some roadmap_keywords.
Proof.
  destruct (optimization_roadmap_steps {| gemini_analyzer := fun _ _ => Ok ∅ |}
              {[ lit "missing_keywords" := VList [lit "sql"; lit "go"; lit "aws"; lit "ci"] ]}
              0 [lit "sql"; lit "go"; lit "aws"; lit "ci"])
    as (r & Hr & _ & _ & _ & _ & Hh & _).
  - vm_compute. reflexivity.
  - vm_compute. reflexivity.
  - exists r. split; [exact Hr | apply Hh; lia].
Defined.

(** A match percentage that is not a number makes every consumer of the
    analysis raise TypeError. *)
Theorem match_percentage_must_be_number (self : EnhancedAnalyzer) (analysis : gmap str pyval)
    (v : pyval) :
  analysis !! lit "match_percentage" = Some v ->
  (forall x, v <> VNum x) ->
  _create_optimization_roadmap self analysis = Raise TypeError /\
  _perform_competitive_analysis self analysis = Raise TypeError /\
  _identify_competitive_advantages self analysis = Raise TypeError /\
  _identify_improvement_areas self analysis = Raise TypeError.
Proof.
  intros Hv Hn.
  unfold _create_optimization_roadmap, _perform_competitive_analysis,
    _identify_competitive_advantages, _identify_improvement_areas, dict_get.
  rewrite Hv. cbn [default from_option id].
  destruct v as [| x | s | l]; cbn; try (repeat split; reflexivity).
  destruct (Hn x eq_refl).
Qed.

Lemma match_percentage_must_be_number_witness :
  _create_optimization_roadmap {| gemini_analyzer := fun _ _ => Ok ∅ |}
    {[ lit "match_percentage" := VStr (lit "85%") ]} = Raise TypeError.
Proof.
  apply (match_percentage_must_be_number _ _ (VStr (lit "85%"))).
  - vm_compute. reflexivity.
  - intros x. discriminate.
Defined.

(** ** Competitive analysis *)

(** With an integer match percentage [n] (0 when absent) and keyword
    lists, the positioning is 'Top 25%' above 80, 'Top 50%' above 60 and
    'Needs Improvement' otherwise, and the other fields agree with it:
    'Top 25%' comes with 'Medium' competition, the alignment advantage and
    no request for more keywords; 'Needs Improvement' comes with 'High'
    competition and that request. *)
Theorem competitive_analysis_consistent (self : EnhancedAnalyzer) (analysis : gmap str pyval)
    (n : Z) (matched missing : list str) :
  dict_get analysis "match_percentage" (VNum (PyInt 0)) = VNum (PyInt n) ->
  dict_get analysis "matched_keywords" (VList []) = VList matched ->
  dict_get analysis "missing_keywords" (VList []) = VList missing ->
  exists c,
    _perform_competitive_analysis self analysis = Ok c /\
    (market_positioning c = lit "Top 25%" <-> 80 < n) /\
    (market_positioning c = lit "Top 50%" <-> 60 < n <= 80) /\
    (market_positioning c = lit "Needs Improvement" <-> n <= 60) /\
    (estimated_competition_level c = lit "High" <-> n < 70) /\
    (estimated_competition_level c = lit "Medium" <-> 70 <= n) /\
    (market_positioning c = lit "Top 25%" ->
     estimated_competition_level c = lit "Medium" /\
     lit "High keyword alignment with job requirements" ∈ competitive_advantage c /\
     lit "Increase job-specific keyword usage" ∉ areas_to_improve c) /\
    (market_positioning c = lit "Needs Improvement" ->
     estimated_competition_level c = lit "High" /\
     lit "Increase job-specific keyword usage" ∈ areas_to_improve c /\
     lit "High keyword alignment with job requirements" ∉ competitive_advantage c).
Proof.
  intros Hm Hk Hs.
  unfold _perform_competitive_analysis, _identify_competitive_advantages,
    _identify_improvement_areas.
  rewrite Hm, Hk, Hs. cbn [val_lt val_gt py_len bind num_lt app].
  destruct (Z.ltb_spec n 70) as [H70|H70];
  destruct (Z.ltb_spec 80 n) as [H80|H80];
  destruct (Z.ltb_spec 60 n) as [H60|H60];
  try lia;
  destruct (10 <? len matched); destruct (5 <? len missing);
  cbn [bind app]; eexists; (split; [reflexivity|]);
  cbn [market_positioning estimated_competition_level competitive_advantage areas_to_improve];
  rewrite ?elem_of_cons, ?elem_of_nil;
  intuition (try lia; try congruence; try discriminate).
Qed.

Lemma competitive_analysis_consistent_witness :
  exists c,
    _perform_competitive_analysis {| gemini_analyzer := fun _ _ => Ok ∅ |}
      {[ lit "match_percentage" := VNum (PyInt 85) ]} = Ok c /\
    estimated_competition_level c = lit "Medium".
Proof.
  destruct (competitive_analysis_consistent {| gemini_analyzer := fun _ _ => Ok ∅ |}
              {[ lit "match_percentage" := VNum (PyInt 85) ]} 85 [] [])
    as (c & Hc & H25 & _ & _ & _ & _ & Htop & _).
  - vm_compute. reflexivity.
  - vm_compute. reflexivity.
  - vm_compute. reflexivity.
  - exists c. split; [exact Hc|]. apply Htop, H25. lia.
Defined.

(** ** Experience levels *)

(** An experience level outside the four known ones is treated as
    'Mid Level (3-5 years)'. *)
Theorem adjust_for_experience_default (self : EnhancedAnalyzer) (level : str)
    (analysis : gmap str pyval) :
  level ∉ [lit "Entry Level (0-2 years)"; lit "Mid Level (3-5 years)";
           lit "Senior Level (6-10 years)"; lit "Executive (10+ years)"] ->
  _adjust_for_experience self level analysis =
  _adjust_for_experience self (lit "Mid Level (3-5 years)") analysis.
Proof.
  intros H. unfold _adjust_for_experience.
  replace (level_adjustments !! level) with (@None ExperienceAdjustment).
  - vm_compute. reflexivity.
  - symmetry. unfold level_adjustments. apply not_elem_of_list_to_map_1. exact H.
Qed.

Lemma adjust_for_experience_default_witness :
  _adjust_for_experience {| gemini_analyzer := fun _ _ => Ok ∅ |} (lit "Intern") ∅ =
  _adjust_for_experience {| gemini_analyzer := fun _ _ => Ok ∅ |} (lit "Mid Level (3-5 years)") ∅.
Proof.
  apply adjust_for_experience_default.
  rewrite !not_elem_of_cons. repeat split; try discriminate. apply not_elem_of_nil.
Defined.

(** ** Deep analysis *)

(** The deep analysis never raises, and its three scores are in range. *)
Theorem deep_analysis_total (self : EnhancedAnalyzer) (resume_text job_description : str) :
  exists d,
    _perform_deep_analysis self resume_text job_description = Ok d /\
    0 <= readability_score d <= 100 /\
    0 <= uniqueness_score d <= 100 /\
    30 <= tone_score (sentiment_analysis d) <= 100.
Proof.
  unfold _perform_deep_analysis.
  destruct (readability_range self resume_text) as (r & Hr & Br).
  destruct (uniqueness_in_range self resume_text) as (u & Hu & Bu).
  rewrite Hr, Hu. cbn [bind]. eexists. split; [reflexivity|].
  cbn [readability_score uniqueness_score sentiment_analysis].
  split; [exact Br|]. split; [exact Bu|]. apply sentiment_in_bounds.
Qed.

(** ** Rounding, two-sided *)

(** A rounding step returns the significand cut at the final exponent, or
    its successor. *)
Lemma binary_round_aux_floor s mx ex lx :
  0 <= mx ->
  exists m2 e2,
    binary_round_aux prec emax s mx ex lx = pack s m2 e2 /\
    Z.max ex (fexp prec emax (Zdigits2 mx + ex)) <= e2 /\
    e2 <= Z.max ex (fexp prec emax (Zdigits2 mx + ex)) + 1 /\
    mx / 2 ^ (e2 - ex) <= m2 <= mx / 2 ^ (e2 - ex) + 1.
Proof.
  intros Hm. unfold binary_round_aux.
  destruct (shr_fexp prec emax mx ex lx) as [mrs1 e1] eqn:S1.
  destruct (shr_fexp_spec _ _ _ _ _ Hm S1) as (E1 & M1 & P1 & D1 & _).
  pose proof (round_nearest_even_bounds (shr_m mrs1) (loc_of_shr_record mrs1)) as [B1 _].
  set (m1 := shr_m mrs1) in *.
  set (m1r := round_nearest_even m1 (loc_of_shr_record mrs1)) in *.
  assert (Hm1r : 0 <= m1r) by lia.
  destruct (shr_fexp prec emax m1r e1 loc_Exact) as [mrs2 e2] eqn:S2.
  destruct (shr_fexp_spec _ _ _ _ _ Hm1r S2) as (E2 & M2 & P2 & D2 & _).
  exists (shr_m mrs2), e2.
  split; [unfold pack; destruct (shr_m mrs2); reflexivity|].
  rewrite <- E1.
  assert (Hlt : m1 < 2 ^ 53).
  { apply Z.lt_le_trans with (1 := Zdigits2_lt m1 P1). apply Z.pow_le_mono_r; lia. }
  assert (Hd : Zdigits2 m1r <= 54).
  { change 54 with (53 + 1). apply Zdigits2_le_of_le; lia. }
  rewrite fexp_eq in E1, E2.
  assert (He1 : -1074 <= e1) by lia.
  assert (He2 : e1 <= e2 <= e1 + 1) by lia.
  split; [lia|]. split; [lia|].
  assert (P : 0 < 2 ^ (e1 - ex)) by (apply Z.pow_pos_nonneg; lia).
  destruct (Z.eq_dec e2 e1) as [->|Hne].
  - rewrite M2, Z.sub_diag, Z.pow_0_r, Z.div_1_r, <- M1. lia.
  - assert (E21 : e2 = e1 + 1) by lia.
    assert (Hd54 : Zdigits2 m1r = 54) by lia.
    assert (Hge : 2 ^ 53 <= m1r).
    { assert (0 < m1r).
      { destruct (Z.eq_dec m1r 0) as [Z0|]; [rewrite Z0 in Hd54; discriminate Hd54 | lia]. }
      pose proof (Zdigits2_ge m1r H) as Hg. rewrite Hd54 in Hg. exact Hg. }
    assert (Em1r : m1r = 2 ^ 53) by lia.
    assert (Em1 : m1 = 2 ^ 53 - 1) by lia.
    rewrite M2, Em1r.
    replace (e2 - e1) with 1 by lia.
    replace (e2 - ex) with ((e1 - ex) + 1) by lia.
    rewrite Z.pow_add_r, <- Z.div_div, <- M1, Em1 by lia.
    change (2 ^ 1) with 2. change (2 ^ 53 / 2) with 4503599627370496.
    change ((2 ^ 53 - 1) / 2) with 4503599627370495. lia.
Qed.

Lemma SFdiv_core_binary_exponent m1 e1 m2 e2 :
  0 < m1 -> 0 < m2 ->
  exists q l,
    SFdiv_core_binary prec emax m1 e1 m2 e2 =
      (q, Z.min (fexp prec emax (Zdigits2 m1 + e1 - (Zdigits2 m2 + e2))) (e1 - e2), l) /\
    q = (m1 * 2 ^ (e1 - e2 - Z.min (fexp prec emax (Zdigits2 m1 + e1 - (Zdigits2 m2 + e2))) (e1 - e2))) / m2.
Proof.
  intros H1 H2. unfold SFdiv_core_binary.
  set (e' := Z.min _ _).
  assert (He' : e' <= e1 - e2) by (subst e'; lia).
  set (sh := e1 - e2 - e').
  assert (Hs : 0 <= sh) by (subst sh; lia).
  assert (Em : match sh with Zpos _ => Z.shiftl m1 sh | Z0 => m1 | Zneg _ => 0 end = m1 * 2 ^ sh).
  { destruct sh as [|p|p] eqn:Es.
    - rewrite Z.pow_0_r. lia.
    - rewrite Z.shiftl_mul_pow2 by lia. reflexivity.
    - lia. }
  rewrite Em, div_eucl_div_mod.
  eexists _, _. split; reflexivity.
Qed.

(** [int(w / 10)] is the integer quotient, for any count [w] below 2^51. *)
Lemma int_of_tenth (w : Z) :
  0 <= w < 2 ^ 51 ->
  exists f, int_truediv w 10 = Ok (PyFloat f) /\ py_int (PyFloat f) = Ok (w / 10).
Proof.
  intros Hw. rewrite int_truediv_ok by lia. eexists. split; [reflexivity|].
  destruct w as [|pw|pw]; [reflexivity| |lia].
  cbn [raw_of_Z SFdiv].
  destruct (SFdiv_core_binary_exponent (Zpos pw) 0 10 0) as (q & l & -> & Hq); [lia|lia|].
  set (e' := Z.min (fexp prec emax (Zdigits2 (Zpos pw) + 0 - (Zdigits2 10 + 0))) (0 - 0)) in *.
  assert (Hd : 0 <= Zdigits2 (Zpos pw) <= 51).
  { split; [apply Zdigits2_nonneg | apply Zdigits2_le_of_lt; lia]. }
  assert (He' : -1074 <= e' <= -6).
  { subst e'. rewrite fexp_eq. change (Zdigits2 10) with 4. lia. }
  replace (0 - 0 - e') with (- e') in Hq by lia.
  assert (PG : 0 < 2 ^ (- e')) by (apply Z.pow_pos_nonneg; lia).
  set (G := 2 ^ (- e')) in *.
  set (k := Zpos pw / 10).
  assert (Hk : 10 * k <= Zpos pw <= 10 * k + 9).
  { subst k. pose proof (Z.div_mod (Zpos pw) 10 ltac:(lia)).
    pose proof (Z.mod_pos_bound (Zpos pw) 10 ltac:(lia)). lia. }
  assert (Hk0 : 0 <= k) by (subst k; apply Z.div_pos; lia).
  assert (Hq1 : k * G <= q).
  { subst q. apply Z.div_le_lower_bound; [lia|]. nia. }
  assert (Hq2 : 10 * q <= (10 * k + 9) * G).
  { subst q. pose proof (Z.mul_div_le (Zpos pw * G) 10 ltac:(lia)). nia. }
  assert (Hq0 : 0 <= q) by nia.
  cbv beta iota. cbn [xorb].
  destruct (binary_round_aux_floor false q e' l Hq0) as (m2 & e2 & -> & Hlo & Hhi & Hm2).
  assert (Hdq : Zdigits2 q + e' <= 48).
  { assert (Hqlt : q < 2 ^ (48 - e')).
    { replace (48 - e') with (48 + - e') by lia. rewrite Z.pow_add_r by lia. fold G.
      assert (Zpos pw < 10 * 2 ^ 48) by (change (10 * 2 ^ 48) with 2814749767106560;
        change (2 ^ 51) with 2251799813685248 in Hw; lia).
      nia. }
    apply Zdigits2_le_of_lt in Hqlt; lia. }
  rewrite fexp_eq in Hlo, Hhi.
  assert (He2 : e' <= e2 <= -4) by lia.
  set (n := e2 - e') in *.
  assert (Pn : 0 < 2 ^ n) by (apply Z.pow_pos_nonneg; lia).
  assert (Pg : 16 <= 2 ^ (- e2)).
  { change 16 with (2 ^ 4). apply Z.pow_le_mono_r; lia. }
  assert (EG : G = 2 ^ (- e2) * 2 ^ n).
  { subst G. rewrite <- Z.pow_add_r by lia. f_equal. lia. }
  set (g := 2 ^ (- e2)) in *.
  assert (Hf1 : k * g <= q / 2 ^ n).
  { apply Z.div_le_lower_bound; [lia|]. nia. }
  assert (Hf2 : q / 2 ^ n + 1 < (k + 1) * g).
  { assert (q / 2 ^ n < (k + 1) * g - 1); [|lia].
    apply Z.div_lt_upper_bound; [lia|]. nia. }
  assert (Hm2k : m2 / g = k).
  { symmetry. apply Z.div_unique with (m2 - k * g); lia. }
  unfold pack. destruct m2 as [|p2|p2].
  - cbn [py_int Ztrunc]. f_equal. fold k. rewrite <- Hm2k. reflexivity.
  - replace (e2 <=? 971) with true by (symmetry; apply Z.leb_le; lia).
    cbn [py_int Ztrunc cond_Zopp].
    replace (e2 <? 0) with true by (symmetry; apply Z.ltb_lt; lia).
    fold g. rewrite Hm2k. reflexivity.
  - lia.
Qed.

(** ** ATS simulation *)

(** For a resume of [w] words (fewer than 2^51) the estimated ranking is
    'Top N%' with N = 100 - min(95, max(5, w div 10)): 'Top 95%' below 60
    words, 'Top 5%' from 950 words on, and never outside these two. *)
Theorem ats_simulation_ranking (self : EnhancedAnalyzer) (resume_text job_description : str) :
  count_words resume_text < 2 ^ 51 ->
  exists r,
    _simulate_ats_processing self resume_text job_description = Ok r /\
    parsing_success_rate r = (if 100 <? len resume_text then 95 else 80) /\
    (exists N, 5 <= N <= 95 /\
       N = 100 - Z.min 95 (Z.max 5 (count_words resume_text / 10)) /\
       estimated_ranking r = lit "Top " ++ str_of_int N ++ lit "%") /\
    (count_words resume_text < 60 -> estimated_ranking r = lit "Top 95%") /\
    (950 <= count_words resume_text -> estimated_ranking r = lit "Top 5%").
Proof.
  intros Hw. unfold _simulate_ats_processing. rewrite len_split.
  assert (H0 : 0 <= count_words resume_text) by (unfold count_words; lia).
  destruct (int_of_tenth (count_words resume_text)) as (f & Hf & Hi); [lia|].
  rewrite Hf. cbn [bind]. rewrite Hi. cbn [bind].
  eexists. split; [reflexivity|].
  cbn [parsing_success_rate estimated_ranking].
  split; [reflexivity|]. split; [|split].
  - eexists. split; [|split; reflexivity]. lia.
  - intros Hlt.
    assert (E : count_words resume_text / 10 <= 5).
    { apply Z.lt_succ_r. apply Z.div_lt_upper_bound; lia. }
    replace (Z.min 95 (Z.max 5 (count_words resume_text / 10))) with 5 by lia.
    vm_compute. reflexivity.
  - intros Hge.
    assert (E : 95 <= count_words resume_text / 10).
    { apply Z.div_le_lower_bound; lia. }
    replace (Z.min 95 (Z.max 5 (count_words resume_text / 10))) with 95 by lia.
    vm_compute. reflexivity.
Qed.

Lemma ats_simulation_ranking_witness :
  exists r,
    _simulate_ats_processing {| gemini_analyzer := fun _ _ => Ok ∅ |}
      (lit "Led two teams and shipped three products") (lit "team lead") = Ok r /\
    estimated_ranking r = lit "Top 95%".
Proof.
  destruct (ats_simulation_ranking {| gemini_analyzer := fun _ _ => Ok ∅ |}
              (lit "Led two teams and shipped three products") (lit "team lead"))
    as (r & Hr & _ & _ & Hlow & _).
  - vm_compute. reflexivity.
  - exists r. split; [exact Hr|]. apply Hlow. vm_compute. reflexivity.
Defined.

(** ** Readability of short sentences *)

Lemma SFdiv_raw_below K c j :
  0 < K <= 2 ^ 52 -> 0 <= c <= K * j -> 0 < j ->
  below K (SFdiv prec emax (raw_of_Z c) (raw_of_Z j)).
Proof.
  intros HK Hc Hj.
  destruct j as [|pj|pj]; try lia.
  destruct c as [|pc|pc]; try lia; cbn [raw_of_Z SFdiv xorb].
  - exact I.
  - destruct (SFdiv_core_binary_spec (Zpos pc) 0 (Zpos pj) 0) as (q & e' & l & -> & He & Hq & Hl); [lia|lia|].
    cbn [Z.sub Z.opp] in *. rewrite Z.sub_0_l in *.
    assert (P : 0 < 2 ^ (- e')) by (apply Z.pow_pos_nonneg; lia).
    set (a := Zpos pc * 2 ^ (- e')) in *.
    assert (Ha : 0 <= a) by (subst a; lia).
    pose proof (Z.div_mod a (Zpos pj) ltac:(lia)) as Hdm.
    pose proof (Z.mod_pos_bound a (Zpos pj) ltac:(lia)) as Hmb.
    assert (Hq0 : 0 <= q) by (subst q; apply Z.div_pos; lia).
    apply binary_round_aux_below; try lia.
    rewrite Hl. subst q.
    destruct (Z.eqb_spec (a mod Zpos pj) 0) as [E0|N0]; subst a; nia.
Qed.

Lemma Pos_iter_xO (m d : positive) : Zpos (Pos.iter xO m d) = Zpos m * 2 ^ Zpos d.
Proof.
  induction d as [|d IH] using Pos.peano_ind.
  - cbn [Pos.iter]. rewrite Pos2Z.inj_xO. change (2 ^ 1) with 2. ring.
  - rewrite Pos.iter_succ, Pos2Z.inj_xO, IH, Pos2Z.inj_succ, Z.pow_succ_r by lia. ring.
Qed.

Lemma shl_align_value m e e' :
  e' <= e -> Zpos (fst (shl_align m e e')) = Zpos m * 2 ^ (e - e') /\ snd (shl_align m e e') = e'.
Proof.
  intros H. unfold shl_align.
  destruct (e' - e) as [|p|p] eqn:E; cbn [fst snd].
  - replace (e - e') with 0 by lia. rewrite Z.pow_0_r. lia.
  - lia.
  - rewrite Pos_iter_xO. replace (e - e') with (Zpos p) by lia. split; reflexivity.
Qed.

Lemma pack_true_nonpos m e : 0 <= m -> nonpos (pack true m e).
Proof. intros H. unfold pack. destruct m; [exact I| |lia]. destruct (e <=? 971); exact I. Qed.

Lemma binary_round_true_nonpos m e : nonpos (binary_round prec emax true m e).
Proof.
  unfold binary_round. destruct (shl_align m e _) as [mz ez].
  destruct (binary_round_aux_spec true (Zpos mz) ez loc_Exact ltac:(lia))
    as (m1r & e1 & m2 & e2 & _ & _ & _ & _ & _ & P2 & _ & ->).
  apply pack_true_nonpos. exact P2.
Qed.

Lemma SFsub_15_nonpos q :
  below 15 q -> nonpos (SFsub prec emax q (S754_finite false 8444249301319680 (-49))).
Proof.
  destruct q as [s|s| |[] m e]; cbn [below]; try contradiction.
  - intros _. exact I.
  - intros [He Hm]. cbn [SFsub cond_Zopp].
    set (ez := Z.min e (-49)).
    destruct (shl_align_value m e ez ltac:(subst ez; lia)) as [E1 _].
    destruct (shl_align_value 8444249301319680 (-49) ez ltac:(subst ez; lia)) as [E2 _].
    rewrite E1, E2.
    assert (Hd : Zpos m * 2 ^ (e - ez) - 8444249301319680 * 2 ^ (-49 - ez) <= 0).
    { assert (P1 : 0 < 2 ^ (e - ez)) by (apply Z.pow_pos_nonneg; subst ez; lia).
      assert (E15 : 8444249301319680 * 2 ^ (-49 - ez) = 15 * 2 ^ (- ez)).
      { change 8444249301319680 with (15 * 2 ^ 49). rewrite <- Z.mul_assoc, <- Z.pow_add_r by (subst ez; lia).
        do 2 f_equal. lia. }
      assert (Em : 2 ^ (- e) * 2 ^ (e - ez) = 2 ^ (- ez)).
      { rewrite <- Z.pow_add_r by (subst ez; lia). f_equal. lia. }
      rewrite E15, <- Em. nia. }
    destruct (Zpos m * 2 ^ (e - ez) - 8444249301319680 * 2 ^ (-49 - ez)) as [|p|p]; [exact I|lia|].
    cbn [binary_normalize]. apply binary_round_true_nonpos.
Qed.

Lemma SFmul_2_nonpos a :
  nonpos a -> nonpos (SFmul prec emax a (S754_finite false 4503599627370496 (-51))).
Proof.
  destruct a as [s|[]| |[] m e]; cbn [nonpos]; try contradiction; intros _; cbn [SFmul xorb]; try exact I.
  destruct (binary_round_aux_spec true (Zpos (m * 4503599627370496)) (e + -51) loc_Exact ltac:(lia))
    as (m1r & e1 & m2 & e2 & _ & _ & _ & _ & _ & P2 & _ & ->).
  apply pack_true_nonpos. exact P2.
Qed.

Lemma Zdigits2_gt_of_le m k : 0 <= k -> 2 ^ k <= m -> k < Zdigits2 m.
Proof.
  intros Hk H.
  assert (Hm : 0 <= m) by (assert (0 < 2 ^ k) by (apply Z.pow_pos_nonneg; lia); lia).
  pose proof (Zdigits2_lt m Hm) as Hlt.
  assert (H2 : 2 ^ k < 2 ^ Zdigits2 m) by lia.
  apply Z.pow_lt_mono_r_iff in H2; [exact H2 | lia | apply Zdigits2_nonneg].
Qed.

(** Rounding a value of at least 100 gives a double that is not below 100. *)
Lemma binary_round_aux_at_least_100 mx ex :
  ex <= -46 -> 100 * 2 ^ (- ex) <= mx ->
  SFltb (binary_round_aux prec emax false mx ex loc_Exact) float_100 = false.
Proof.
  intros Hex Hmx.
  assert (Pex : 0 < 2 ^ (- ex)) by (apply Z.pow_pos_nonneg; lia).
  assert (Hm0 : 0 <= mx) by lia.
  destruct (binary_round_aux_floor false mx ex loc_Exact Hm0) as (m2 & e2 & -> & Hlo & Hhi & Hm2).
  rewrite fexp_eq in Hlo, Hhi.
  assert (Hd : 6 - ex < Zdigits2 mx).
  { apply Zdigits2_gt_of_le; [lia|].
    replace (6 - ex) with (6 + - ex) by lia. rewrite Z.pow_add_r by lia.
    change (2 ^ 6) with 64. lia. }
  assert (He2 : -46 <= e2) by lia.
  assert (Pn : 0 < 2 ^ (e2 - ex)) by (apply Z.pow_pos_nonneg; lia).
  assert (Hpos : 0 < m2).
  { assert (1 <= mx / 2 ^ (e2 - ex)); [|lia].
    apply Z.div_le_lower_bound; [lia|]. rewrite Z.mul_1_r.
    destruct (Z_le_gt_dec e2 0) as [Hle|Hgt].
    - replace (- ex) with (- e2 + (e2 - ex)) in Hmx by lia.
      rewrite Z.pow_add_r in Hmx by lia.
      assert (0 < 2 ^ (- e2)) by (apply Z.pow_pos_nonneg; lia). nia.
    - assert (e2 - ex <= Zdigits2 mx - 1) by lia.
      apply Z.le_trans with (2 ^ (Zdigits2 mx - 1)).
      + apply Z.pow_le_mono_r; lia.
      + apply Zdigits2_ge. lia. }
  unfold pack. destruct m2 as [|p2|p2]; try lia.
  destruct (e2 <=? 971); [|reflexivity].
  unfold SFltb, SFcompare, float_100.
  destruct (Z.compare_spec e2 (-46)) as [E|Hlt|Hgt].
  - subst e2.
    assert (Hge : 7036874417766400 <= Zpos p2).
    { apply Z.le_trans with (mx / 2 ^ (-46 - ex)); [|lia].
      apply Z.div_le_lower_bound; [lia|].
      replace (- ex) with (46 + (-46 - ex)) in Hmx by lia.
      rewrite Z.pow_add_r in Hmx by lia. change (2 ^ 46) with 70368744177664 in Hmx. lia. }
    rewrite Pos.compare_cont_spec. cbn [Pos.switch_Eq].
    destruct (Pos.compare_spec p2 7036874417766400) as [E|Hlt|Hgt]; try reflexivity.
    exfalso. assert (Hlt' : Zpos p2 < 7036874417766400) by exact Hlt. clear Hlt. lia.
  - lia.
  - reflexivity.
Qed.

Lemma SFsub_100_nonpos b :
  nonpos b -> SFltb (SFsub prec emax float_100 b) float_100 = false.
Proof.
  unfold float_100.
  destruct b as [s|[]| |[] m e]; cbn [nonpos]; try contradiction; intros _; cbn [SFsub negb].
  - vm_compute. reflexivity.
  - reflexivity.
  - cbn [cond_Zopp].
    set (ez := Z.min (-46) e).
    destruct (shl_align_value 7036874417766400 (-46) ez ltac:(subst ez; lia)) as [E1 _].
    destruct (shl_align_value m e ez ltac:(subst ez; lia)) as [E2 _].
    rewrite E1, E2.
    assert (P1 : 0 < 2 ^ (e - ez)) by (apply Z.pow_pos_nonneg; subst ez; lia).
    assert (P2 : 0 < 2 ^ (-46 - ez)) by (apply Z.pow_pos_nonneg; subst ez; lia).
    replace (7036874417766400 * 2 ^ (-46 - ez) - - (Zpos m * 2 ^ (e - ez)))
      with (7036874417766400 * 2 ^ (-46 - ez) + Zpos m * 2 ^ (e - ez)) by lia.
    assert (E100 : 7036874417766400 * 2 ^ (-46 - ez) = 100 * 2 ^ (- ez)).
    { change 7036874417766400 with (100 * 2 ^ 46). rewrite <- Z.mul_assoc, <- Z.pow_add_r by (subst ez; lia).
      do 2 f_equal. lia. }
    assert (Pz : 0 < 2 ^ (- ez)) by (apply Z.pow_pos_nonneg; subst ez; lia).
    destruct (7036874417766400 * 2 ^ (-46 - ez) + Zpos m * 2 ^ (e - ez)) as [|p|p] eqn:ES; try lia.
    cbn [binary_normalize]. unfold binary_round.
    set (ef := fexp prec emax (Zpos (digits2_pos p) + ez)).
    destruct (Z_le_gt_dec ef ez) as [Hle|Hgt].
    + destruct (shl_align_value p ez ef Hle) as [V1 V2].
      destruct (shl_align p ez ef) as [mz ez'] eqn:ESA. cbn [fst snd] in V1, V2. subst ez'.
      apply binary_round_aux_at_least_100.
      * subst ez. lia.
      * rewrite V1.
        assert (Pd : 0 < 2 ^ (ez - ef)) by (apply Z.pow_pos_nonneg; lia).
        replace (- ef) with (- ez + (ez - ef)) by lia. rewrite Z.pow_add_r by (subst ez; lia).
        nia.
    + assert (ESA : shl_align p ez ef = (p, ez)).
      { unfold shl_align. destruct (ef - ez) eqn:E; try reflexivity. lia. }
      rewrite ESA. apply binary_round_aux_at_least_100.
      * subst ez. lia.
      * lia.
Qed.

(** A text of at most 15 words per fragment between full stops has
    readability 100; so has any text without words. *)
Theorem readability_short_sentences (self : EnhancedAnalyzer) (text : str) :
  count_words text <= 15 * Z.max 1 (count_fragments "." text) ->
  _calculate_readability self text = Ok 100.
Proof.
  intros H. rewrite readability_unfold.
  assert (Hw : 0 <= count_words text) by (unfold count_words; lia).
  set (w := count_words text) in *. set (s := Z.max 1 (count_fragments "." text)) in *.
  assert (Hs : 0 < s) by (subst s; lia).
  assert (Hx : SFltb (readability_value w s) float_100 = false).
  { unfold readability_value. rewrite float_of_int_100, float_of_int_15, float_of_int_2.
    apply SFsub_100_nonpos, SFmul_2_nonpos, SFsub_15_nonpos.
    apply SFdiv_raw_below; lia. }
  unfold py_min, py_max, num_lt, as_float. rewrite float_of_int_100, Hx. reflexivity.
Qed.

Lemma readability_short_sentences_witness :
  _calculate_readability {| gemini_analyzer := fun _ _ => Ok ∅ |}
    (lit "Led a team of five. Shipped two products.") = Ok 100.
Proof.
  apply readability_short_sentences. vm_compute. discriminate.
Defined.

(** ** The patterns of the quick score *)

Lemma search_one (p : ascii -> bool) (prev : option ascii) (s : str) :
  search_from [One p] prev s = existsb p s.
Proof.
  revert prev. induction s as [|c s IH]; intros prev; cbn [search_from match_here existsb].
  - reflexivity.
  - destruct (p c); cbn [option_map orb]; [reflexivity | apply IH].
Qed.

Lemma findall_one (p : ascii -> bool) (prev : option ascii) (s : str) :
  findall_from [One p] prev 0 s = map (fun c => [c]) (List.filter p s).
Proof.
  revert prev. induction s as [|c s IH]; intros prev; cbn [findall_from match_here List.filter].
  - reflexivity.
  - destruct (p c); cbn [option_map firstn Nat.pred map]; rewrite IH; reflexivity.
Qed.

Lemma search_at_spec (s : str) : re_search pat_at s = true <-> "@"%char ∈ s.
Proof.
  unfold re_search, pat_at. rewrite search_one, existsb_exists. split.
  - intros (c & Hin & Hc). apply Ascii.eqb_eq in Hc. subst c. apply list_elem_of_In, Hin.
  - intros H. exists "@"%char. split; [apply list_elem_of_In, H | apply Ascii.eqb_refl].
Qed.

Lemma prev_of_cons prev c pre : prev_of prev (c :: pre) = prev_of (Some c) pre.
Proof. unfold prev_of. rewrite last_cons. destruct (last pre); reflexivity. Qed.

Lemma search_from_spec (re : regex) (s : str) (prev : option ascii) :
  search_from re prev s = true <->
  exists pre post, s = pre ++ post /\ match_here re (prev_of prev pre) post <> None.
Proof.
  revert prev. induction s as [|c s IH]; intros prev; cbn [search_from].
  - split.
    + intros H. exists [], []. split; [reflexivity|]. cbn. destruct (match_here re prev []); [discriminate | discriminate H].
    + intros (pre & post & E & Hm). symmetry in E. apply app_eq_nil in E. destruct E as [-> ->].
      cbn in Hm. destruct (match_here re prev []); [reflexivity | congruence].
  - destruct (match_here re prev (c :: s)) eqn:Em.
    + split; [|reflexivity]. intros _. exists [], (c :: s). split; [reflexivity|].
      cbn. rewrite Em. discriminate.
    + rewrite IH. split.
      * intros (pre & post & -> & Hm). exists (c :: pre), post. split; [reflexivity|].
        rewrite prev_of_cons. exact Hm.
      * intros (pre & post & E & Hm). destruct pre as [|a pre].
        -- cbn in E. subst post. cbn in Hm. congruence.
        -- cbn in E. injection E as <- ->. exists pre, post. split; [reflexivity|].
           rewrite prev_of_cons in Hm. exact Hm.
Qed.

Lemma match_here_year (prev : option ascii) (s : str) :
  match_here pat_year prev s <> None <->
  exists a b c d post,
    s = [a; b; c; d] ++ post /\
    isdecimal a = true /\ isdecimal b = true /\ isdecimal c = true /\ isdecimal d = true /\
    word_before prev = false /\ word_at post = false.
Proof.
  unfold pat_year. split.
  - intros H. cbn [match_here] in H.
    destruct (xorb (word_before prev) (word_at s)) eqn:X; [|congruence].
    destruct s as [|a s]; [congruence|].
    destruct (isdecimal a) eqn:Da; [|congruence].
    destruct s as [|b s]; [cbn in H; congruence|].
    destruct (isdecimal b) eqn:Db; [|cbn in H; congruence].
    destruct s as [|c s]; [cbn in H; congruence|].
    destruct (isdecimal c) eqn:Dc; [|cbn in H; congruence].
    destruct s as [|d post]; [cbn in H; congruence|].
    destruct (isdecimal d) eqn:Dd; [|cbn in H; congruence].
    cbn [word_before] in H. rewrite (isdecimal_isword d Dd) in H.
    cbn [word_at] in X. rewrite (isdecimal_isword a Da) in X.
    exists a, b, c, d, post. repeat split; try reflexivity; try assumption.
    + destruct (word_before prev); [discriminate X | reflexivity].
    + destruct (word_at post); [cbn in H; congruence | reflexivity].
  - intros (a & b & c & d & post & -> & Da & Db & Dc & Dd & Hp & Hq).
    cbn [app match_here word_at word_before].
    rewrite Hp, (isdecimal_isword a Da), Da, Db, Dc, Dd, (isdecimal_isword d Dd), Hq. cbn. discriminate.
Qed.

Lemma search_year_spec (s : str) : re_search pat_year s = true <-> standalone_year s.
Proof.
  unfold re_search, standalone_year. rewrite search_from_spec. split.
  - intros (pre & post & -> & Hm). apply match_here_year in Hm.
    destruct Hm as (a & b & c & d & post' & -> & Da & Db & Dc & Dd & Hp & Hq).
    exists pre, a, b, c, d, post'. repeat split; try assumption.
    unfold prev_of in Hp. destruct (last pre); exact Hp.
  - intros (pre & a & b & c & d & post & -> & Da & Db & Dc & Dd & Hp & Hq).
    exists pre, ([a; b; c; d] ++ post). split; [reflexivity|].
    apply match_here_year. exists a, b, c, d, post. repeat split; try assumption.
    unfold prev_of. destruct (last pre); exact Hp.
Qed.

Lemma quick_ats_score_body (globals : list string) (self : SmartATSProElite) (resume_text : str) :
  In "re"%string globals ->
  exists d_len d_year d_mail d_spec,
    calculate_quick_ats_score_in globals self resume_text =
      Ok (100 - d_len - d_year - d_mail - d_spec) /\
    ((len resume_text < 500 /\ d_len = 20) \/ (500 <= len resume_text /\ d_len = 0)) /\
    ((standalone_year resume_text /\ d_year = 0) \/
     (~ standalone_year resume_text /\ d_year = 15)) /\
    (("@"%char ∈ resume_text /\ d_mail = 0) \/ (("@"%char ∉ resume_text) /\ d_mail = 10)) /\
    d_spec = (if num_lt (num_mul (PyInt (len resume_text)) (PyFloat float_0_1))
                   (PyInt (len (List.filter (fun c => negb (isword c || isspace c)) resume_text)))
              then 10 else 0) /\
    45 <= 100 - d_len - d_year - d_mail - d_spec <= 100.
Proof.
  intros Hre. unfold calculate_quick_ats_score_in.
  assert (Hg : load_global globals "re" = Ok tt).
  { unfold load_global. replace (existsb (String.eqb "re") globals) with true; [reflexivity|].
    symmetry. apply existsb_exists. exists "re"%string. split; [exact Hre | apply String.eqb_refl]. }
  rewrite Hg. cbn [bind].
  assert (Hlen : len (re_findall pat_special resume_text) =
                 len (List.filter (fun c => negb (isword c || isspace c)) resume_text)).
  { unfold re_findall, pat_special, len. rewrite findall_one, length_map. reflexivity. }
  rewrite Hlen.
  exists (if len resume_text <? 500 then 20 else 0),
         (if re_search pat_year resume_text then 0 else 15),
         (if re_search pat_at resume_text then 0 else 10).
  eexists. split; [|split; [|split; [|split; [|split; [reflexivity|]]]]].
  - f_equal.
    destruct (len resume_text <? 500), (re_search pat_year resume_text),
      (re_search pat_at resume_text), (num_lt _ _); reflexivity.
  - destruct (Z.ltb_spec (len resume_text) 500); [left | right]; split; (lia || reflexivity).
  - destruct (re_search pat_year resume_text) eqn:E.
    + left. split; [apply search_year_spec, E | reflexivity].
    + right. split; [|reflexivity]. intros H. apply search_year_spec in H. congruence.
  - destruct (re_search pat_at resume_text) eqn:E.
    + left. split; [apply search_at_spec, E | reflexivity].
    + right. split; [|reflexivity]. intros H. apply search_at_spec in H. congruence.
  - destruct (len resume_text <? 500), (re_search pat_year resume_text),
      (re_search pat_at resume_text), (num_lt _ _); lia.
Qed.

(** In a module that binds [re] the body of the quick score returns 100
    less 20 for a text under 500 characters, 15 without a standalone
    four-digit number, 10 without '@' and 10 when the count of characters
    that are neither word characters nor whitespace exceeds the double
    [len * 0.1]; the result lies between 45 and 100. *)
Theorem quick_ats_score_formula (globals : list string) (self : SmartATSProElite) (resume_text : str) :
  In "re"%string globals ->
  exists d_len d_year d_mail d_spec,
    calculate_quick_ats_score_in globals self resume_text =
      Ok (100 - d_len - d_year - d_mail - d_spec) /\
    ((len resume_text < 500 /\ d_len = 20) \/ (500 <= len resume_text /\ d_len = 0)) /\
    ((standalone_year resume_text /\ d_year = 0) \/
     (~ standalone_year resume_text /\ d_year = 15)) /\
    (("@"%char ∈ resume_text /\ d_mail = 0) \/ (("@"%char ∉ resume_text) /\ d_mail = 10)) /\
    d_spec = (if num_lt (num_mul (PyInt (len resume_text)) (PyFloat float_0_1))
                   (PyInt (len (List.filter (fun c => negb (isword c || isspace c)) resume_text)))
              then 10 else 0) /\
    45 <= 100 - d_len - d_year - d_mail - d_spec <= 100.
Proof. apply quick_ats_score_body. Qed.

Lemma quick_ats_score_formula_witness :
  exists z,
    calculate_quick_ats_score_in ("re"%string :: enhanced_app_integration_globals)
      {| session := ∅; current_tab := [] |} (lit "Jane Doe, jane@doe.org, since 2015") = Ok z /\
    45 <= z <= 100.
Proof.
  destruct (quick_ats_score_formula ("re"%string :: enhanced_app_integration_globals)
              {| session := ∅; current_tab := [] |} (lit "Jane Doe, jane@doe.org, since 2015"))
    as (d1 & d2 & d3 & d4 & H & _ & _ & _ & _ & Hb).
  - left. reflexivity.
  - eexists. split; [exact H | exact Hb].
Defined.

Lemma quick_ats_score_at_least_45 (globals : list string) (self : SmartATSProElite) (resume_text : str) :
  In "re"%string globals ->
  exists z, calculate_quick_ats_score_in globals self resume_text = Ok z /\ 45 <= z <= 100.
Proof.
  intros Hre.
  destruct (quick_ats_score_body globals self resume_text Hre)
    as (d1 & d2 & d3 & d4 & H & _ & _ & _ & _ & Hb).
  eexists. split; [exact H | exact Hb].
Qed.
